(** * Py2CppTransformer: the rewriting pipeline of py2cpp_transformer.py

    A shallow embedding of [ReservoirEcho/reservoircpp_cpp/py2cpp_transformer.py].
    Text is a [string]; a character is an [ascii], read as a code point
    below 256.  The passes of the transformer are built from Python's [re]
    module and from methods of [str]; both are embedded here as executable
    functions, so that every pass can be evaluated on a concrete unit. *)

From Stdlib Require Import Ascii String List ZArith NArith Lia Bool.
From stdpp Require Import base gmap strings list.
Import ListNotations.

Local Open Scope N_scope.

(** ** Characters *)

Module Chars.

Definition code (c : ascii) : N := N_of_ascii c.

Definition between (lo hi : N) (c : ascii) : bool :=
  (lo <=? code c) && (code c <=? hi).

Definition LF : ascii := ascii_of_N 10.
Definition DQUOTE : ascii := ascii_of_N 34.
Definition SQUOTE : ascii := ascii_of_N 39.

(** [str.isspace] on one character, which is also the class [\s] of a
    [str] pattern: TAB..CR, FS..US, the space, NEL and NBSP. *)
Definition isspace (c : ascii) : bool :=
  between 9 13 c || between 28 32 c || (code c =? 133) || (code c =? 160).

(** [str.isdigit] on one character: the ten digits and the superscripts
    two, three and one. *)
Definition isdigit (c : ascii) : bool :=
  between 48 57 c || between 178 179 c || (code c =? 185).

(** [str.isalnum] on one character below 256. *)
Definition isalnum (c : ascii) : bool :=
  between 48 57 c || between 65 90 c || between 97 122 c
  || (code c =? 170) || between 178 179 c || (code c =? 181)
  || between 185 186 c || between 188 190 c
  || between 192 214 c || between 216 246 c || between 248 255 c.

(** The class [\w]. *)
Definition isword (c : ascii) : bool := isalnum c || (code c =? 95).

(** The class [\S]. *)
Definition nonspace (c : ascii) : bool := negb (isspace c).

(** [.] without [re.DOTALL], and with it. *)
Definition dot (c : ascii) : bool := negb (code c =? 10).
Definition dotall (_ : ascii) : bool := true.

Definition ischar (d c : ascii) : bool := code c =? code d.
Definition notchar (d c : ascii) : bool := negb (ischar d c).

(** [str.lower] on one character below 256. *)
Definition lower (c : ascii) : ascii :=
  if between 65 90 c || between 192 214 c || between 216 222 c
  then ascii_of_N (code c + 32) else c.

(** [str.upper] on one character; the three characters of the range whose
    upper case is longer or lies above 255 are kept as they are. *)
Definition upper (c : ascii) : ascii :=
  if between 97 122 c || between 224 246 c || between 248 254 c
  then ascii_of_N (code c - 32) else c.

End Chars.

Local Close Scope N_scope.

(** ** Methods of [str] *)

Module Str.

Definition LF : string := String Chars.LF EmptyString.
Definition DQ : string := String Chars.DQUOTE EmptyString.

Fixpoint len (s : string) : nat :=
  match s with
  | EmptyString => 0
  | String _ t => S (len t)
  end.

Fixpoint rev_onto (s acc : string) : string :=
  match s with
  | EmptyString => acc
  | String c t => rev_onto t (String c acc)
  end.

Definition rev (s : string) : string := rev_onto s EmptyString.

Fixpoint map (f : ascii -> ascii) (s : string) : string :=
  match s with
  | EmptyString => EmptyString
  | String c t => String (f c) (map f t)
  end.

Definition lower : string -> string := map Chars.lower.
Definition upper : string -> string := map Chars.upper.

(** [' ' * n]: the empty string when [n] is not positive. *)
Fixpoint spaces_nat (n : nat) : string :=
  match n with
  | O => EmptyString
  | S m => String " " (spaces_nat m)
  end.

Definition spaces (n : Z) : string := spaces_nat (Z.to_nat n).

(** [s[:n]] and [s[n:]] for [n >= 0]. *)
Fixpoint take (n : nat) (s : string) : string :=
  match n, s with
  | S m, String c t => String c (take m t)
  | _, _ => EmptyString
  end.

Fixpoint drop (n : nat) (s : string) : string :=
  match n, s with
  | S m, String _ t => drop m t
  | _, _ => s
  end.

(** [s.lstrip()] and [s.lstrip(' ')]. *)
Fixpoint lstrip_by (p : ascii -> bool) (s : string) : string :=
  match s with
  | String c t => if p c then lstrip_by p t else s
  | EmptyString => EmptyString
  end.

Definition rstrip_by (p : ascii -> bool) (s : string) : string :=
  rev (lstrip_by p (rev s)).

(** [s.strip()] *)
Definition strip (s : string) : string :=
  rstrip_by Chars.isspace (lstrip_by Chars.isspace s).

(** [s.startswith(p)] and [s.endswith(p)] *)
Fixpoint startswith (s p : string) : bool :=
  match p, s with
  | EmptyString, _ => true
  | String a p', String b s' => Chars.ischar a b && startswith s' p'
  | String _ _, EmptyString => false
  end.

Definition endswith (s p : string) : bool := startswith (rev s) (rev p).

(** [s.find(c)] for a single character [c]: [None] stands for -1. *)
Fixpoint find (c : ascii) (s : string) : option nat :=
  match s with
  | EmptyString => None
  | String d t =>
      if Chars.ischar c d then Some O
      else match find c t with
           | Some i => Some (S i)
           | None => None
           end
  end.

(** [c in s] *)
Definition contains (c : ascii) (s : string) : bool :=
  match find c s with Some _ => true | None => false end.

(** [s.rfind(c)] *)
Fixpoint rfind_from (c : ascii) (s : string) (i : nat) (last : option nat)
  : option nat :=
  match s with
  | EmptyString => last
  | String d t =>
      rfind_from c t (S i) (if Chars.ischar c d then Some i else last)
  end.

Definition rfind (c : ascii) (s : string) : option nat :=
  rfind_from c s O None.

(** [s.split(c)] for a single-character separator: never the empty list. *)
Fixpoint split (c : ascii) (s : string) : list string :=
  match s with
  | EmptyString => [EmptyString]
  | String d t =>
      if Chars.ischar c d then EmptyString :: split c t
      else match split c t with
           | hd :: tl => String d hd :: tl
           | [] => [String d EmptyString]
           end
  end.

(** [a, b = s.split(c, 1)], used by the source only under [c in s]. *)
Definition split_once (c : ascii) (s : string) : string * string :=
  match find c s with
  | Some i => (take i s, drop (S i) s)
  | None => (s, EmptyString)
  end.

(** [sep.join(l)] *)
Fixpoint join (sep : string) (l : list string) : string :=
  match l with
  | [] => EmptyString
  | [x] => x
  | x :: tl => x +:+ sep +:+ join sep tl
  end.

(** [s.isdigit()]: every character a digit, and at least one. *)
Fixpoint all (p : ascii -> bool) (s : string) : bool :=
  match s with
  | EmptyString => true
  | String c t => p c && all p t
  end.

Definition isdigit (s : string) : bool :=
  match s with
  | EmptyString => false
  | _ => all Chars.isdigit s
  end.

(** [s.replace(c, '', 1)] for a single character [c]. *)
Fixpoint remove_first (c : ascii) (s : string) : string :=
  match s with
  | EmptyString => EmptyString
  | String d t => if Chars.ischar c d then t else String d (remove_first c t)
  end.

Definition eqb (a b : string) : bool := bool_decide (a = b).

Definition nonempty (s : string) : bool :=
  match s with EmptyString => false | _ => true end.

End Str.

(** ** The fragment of [re] the transformer uses

    Every pattern of the source is a sequence of literals, quantified
    character classes ([\s+], [\w+], [.*?], [[^)]*], ...), capture groups,
    optional non-capturing groups and the anchors [^] and [$], the anchors
    always under [re.MULTILINE].  The matcher is the backtracking matcher of
    [re]: alternatives are tried in priority order (a greedy quantifier
    longest first, a lazy one shortest first, an optional group present
    first) and the first that lets the rest of the pattern match wins. *)

Module Re.

Inductive regex : Type :=
| Lit (s : string)                                  (* literal text *)
| Rep (greedy : bool) (least : nat) (cls : ascii -> bool)
                                                    (* cls*, cls+, cls*?, cls+? *)
| Grp (n : nat) (r : regex)                         (* ( r ), group number n *)
| Opt (r : regex)                                   (* (?: r )? *)
| Seq (r1 r2 : regex)
| Bol                                               (* ^ under re.MULTILINE *)
| Eol.                                              (* $ under re.MULTILINE *)

(** A position in the subject: the character before it (none at the start
    of the text), the text from it on, its index, and the groups captured
    so far. *)
Record cursor : Type := Cursor {
  before : option ascii;
  rest : string;
  pos : nat;
  groups : list (nat * string)
}.

Definition at_bol (c : cursor) : bool :=
  match before c with
  | None => true
  | Some a => Chars.ischar Chars.LF a
  end.

Definition at_eol (c : cursor) : bool :=
  match rest c with
  | EmptyString => true
  | String a _ => Chars.ischar Chars.LF a
  end.

Definition advance (a : ascii) (t : string) (c : cursor) : cursor :=
  Cursor (Some a) t (S (pos c)) (groups c).

Fixpoint eat (lit : string) (c : cursor) : option cursor :=
  match lit with
  | EmptyString => Some c
  | String a lit' =>
      match rest c with
      | String b t =>
          if Chars.ischar a b then eat lit' (advance b t c) else None
      | EmptyString => None
      end
  end.

Definition set_group (n : nat) (from to : cursor) : cursor :=
  Cursor (before to) (rest to) (pos to)
         ((n, Str.take (pos to - pos from) (rest from)) :: groups to).

Definition orelse {A} (x : option A) (y : option A) : option A :=
  match x with Some _ => x | None => y end.

Section Quantifier.
Variable cls : ascii -> bool.
Variable k : cursor -> option cursor.

(** Greedy: take one more character while the class allows, and give
    characters back one by one when the continuation fails. *)
Fixpoint greedy (s : string) (least : nat) (c : cursor) : option cursor :=
  let stop := match least with O => k c | S _ => None end in
  match s with
  | String a t =>
      if cls a
      then orelse (greedy t (Nat.pred least) (advance a t c)) stop
      else stop
  | EmptyString => stop
  end.

(** Lazy: try the continuation first, take one more character only when
    it fails. *)
Fixpoint lazy (s : string) (least : nat) (c : cursor) : option cursor :=
  let more :=
    match s with
    | String a t =>
        if cls a then lazy t (Nat.pred least) (advance a t c) else None
    | EmptyString => None
    end in
  match least with
  | O => orelse (k c) more
  | S _ => more
  end.
End Quantifier.

Fixpoint run (r : regex) (c : cursor) (k : cursor -> option cursor)
  : option cursor :=
  match r with
  | Lit s => match eat s c with Some c' => k c' | None => None end
  | Rep true least cls => greedy cls k (rest c) least c
  | Rep false least cls => lazy cls k (rest c) least c
  | Grp n r' => run r' c (fun c' => k (set_group n c c'))
  | Opt r' => orelse (run r' c k) (k c)
  | Seq r1 r2 => run r1 c (fun c' => run r2 c' k)
  | Bol => if at_bol c then k c else None
  | Eol => if at_eol c then k c else None
  end.

(** A match object: where the match ends and what its groups hold. *)
Record matched : Type := Matched {
  span : nat;                      (* length of the matched text *)
  captures : list (nat * string)
}.

(** [pattern.match] at a position of the subject. *)
Definition match_at (r : regex) (before : option ascii) (s : string)
  : option matched :=
  match run r (Cursor before s O []) Some with
  | Some c => Some (Matched (pos c) (groups c))
  | None => None
  end.

(** [m.group(n)]: [None] when the group took no part in the match. *)
Fixpoint lookup_group (n : nat) (l : list (nat * string)) : option string :=
  match l with
  | [] => None
  | (i, s) :: tl => if Nat.eqb i n then Some s else lookup_group n tl
  end.

Definition group (n : nat) (m : matched) : option string :=
  lookup_group n (captures m).

(** [\n] of a replacement template, and [m.group(n) or '']. *)
Definition ref (n : nat) (m : matched) : string :=
  match group n m with Some s => s | None => EmptyString end.

(** [pattern.sub(repl, s)]: the matches are found from left to right, each
    search starting where the previous match ended.  [skip] counts the
    characters of the current match still to be passed over.  (After an
    empty match the scan moves on by one character; no pattern of the
    source can match the empty string.) *)
Fixpoint sub_from (r : regex) (repl : matched -> string)
    (before : option ascii) (s : string) (skip : nat) : string :=
  match skip with
  | S n =>
      match s with
      | String a t => sub_from r repl (Some a) t n
      | EmptyString => EmptyString
      end
  | O =>
      match match_at r before s with
      | Some m =>
          repl m +:+
          match s with
          | String a t =>
              match span m with
              | O => String a (sub_from r repl (Some a) t O)
              | S n => sub_from r repl (Some a) t n
              end
          | EmptyString => EmptyString
          end
      | None =>
          match s with
          | String a t => String a (sub_from r repl (Some a) t O)
          | EmptyString => EmptyString
          end
      end
  end.

Definition sub (r : regex) (repl : matched -> string) (s : string) : string :=
  sub_from r repl None s O.

(** [pattern.finditer(s)], as the list of its match objects. *)
Fixpoint finditer_from (r : regex) (before : option ascii) (s : string)
    (skip : nat) : list matched :=
  match skip with
  | S n =>
      match s with
      | String a t => finditer_from r (Some a) t n
      | EmptyString => []
      end
  | O =>
      match match_at r before s with
      | Some m =>
          m :: match s with
               | String a t => finditer_from r (Some a) t (Nat.pred (span m))
               | EmptyString => []
               end
      | None =>
          match s with
          | String a t => finditer_from r (Some a) t O
          | EmptyString => []
          end
      end
  end.

Definition finditer (r : regex) (s : string) : list matched :=
  finditer_from r None s O.

(** A pattern written as the sequence of its parts. *)
Definition cat (l : list regex) : regex :=
  fold_right Seq (Lit EmptyString) l.

(** The quantified classes as the source writes them. *)
Definition star (cls : ascii -> bool) : regex := Rep true 0 cls.
Definition plus (cls : ascii -> bool) : regex := Rep true 1 cls.
Definition star_lazy (cls : ascii -> bool) : regex := Rep false 0 cls.
Definition plus_lazy (cls : ascii -> bool) : regex := Rep false 1 cls.

(** The cursor [n] characters further on, or at the end of the text. *)
Fixpoint forward (n : nat) (c : cursor) : cursor :=
  match n with
  | O => c
  | S m =>
      match rest c with
      | String a t => forward m (advance a t c)
      | EmptyString => c
      end
  end.

(** The numbers of the groups of a pattern. *)
Fixpoint group_numbers (r : regex) : list nat :=
  match r with
  | Grp n r' => n :: group_numbers r'
  | Opt r' => group_numbers r'
  | Seq r1 r2 => group_numbers r1 ++ group_numbers r2
  | Lit _ | Rep _ _ _ | Bol | Eol => []
  end.

End Re.

(** ** class Py2CppTransformer *)

Module Py2CppTransformer.

Import Re.

Local Abbreviation LF := Str.LF.
Local Abbreviation DQ := Str.DQ.

(** *** The tables of [__init__] *)

Definition python_types_to_cpp : gmap string string :=
  list_to_map
    [ ("int", "int"); ("float", "double"); ("bool", "bool");
      ("str", "std::string"); ("list", "std::vector");
      ("dict", "std::unordered_map"); ("set", "std::unordered_set");
      ("tuple", "std::tuple"); ("None", "nullptr") ].

Definition python_funcs_to_cpp : gmap string string :=
  list_to_map
    [ ("len", "size"); ("print", "std::cout"); ("range", "range");
      ("enumerate", "enumerate") ].

Definition lib_imports : gmap string (list string) :=
  list_to_map
    [ ("numpy", ["Eigen/Dense"; "Eigen/Sparse"; "reservoircpp/numpy.hpp"]);
      ("scipy", ["reservoircpp/scipy.hpp"]);
      ("random", ["random"]);
      ("logging", ["iostream"; "reservoircpp/logging.hpp"]);
      ("os", ["filesystem"]);
      ("time", ["chrono"]) ].

(** [python_types_to_cpp.get(t, 'auto')] *)
Definition cpp_type_of (t : string) : string :=
  default "auto" (python_types_to_cpp !! t).

(** *** preprocess_comments *)

Definition docstring_re (quote : string) : regex :=
  cat [Lit quote; Grp 1 (star_lazy Chars.dotall); Lit quote].

Definition docstring_repl (m : matched) : string :=
  "/**" +:+ LF +:+ ref 1 m +:+ LF +:+ "*/".

Definition hash_comment (line : string) : string :=
  match Str.find "#" line with
  | Some comment_start =>
      let code_part := Str.take comment_start line in
      let comment_part := Str.drop (S comment_start) line in
      code_part +:+ "// " +:+ comment_part
  | None => line
  end.

Definition preprocess_comments (code : string) : string :=
  let code := sub (docstring_re (DQ +:+ DQ +:+ DQ)) docstring_repl code in
  let code := sub (docstring_re "'''") docstring_repl code in
  let lines := Str.split Chars.LF code in
  Str.join LF (map hash_comment lines).

(** *** transform_imports *)

Definition import_re : regex :=
  cat [ Bol;
        Opt (cat [Lit "from"; plus Chars.isspace;
                  Grp 1 (plus Chars.nonspace); plus Chars.isspace]);
        Lit "import"; plus Chars.isspace;
        Grp 2 (plus_lazy Chars.dot);
        Opt (cat [plus Chars.isspace; Lit "as"; plus Chars.isspace;
                  Grp 3 (plus Chars.nonspace)]);
        Eol ].

Definition dots_to_slashes (s : string) : string :=
  Str.map (fun c => if Chars.ischar "." c then "/"%char else c) s.

(** The include directives of one import statement: the body of the loop
    over [import_re.finditer(code)]. *)
Definition includes_of_match (m : matched) : list string :=
  let module := ref 1 m in
  let names := Str.strip (ref 2 m) in
  match lib_imports !! module with
  | Some headers =>
      map (fun header => "#include <" +:+ header +:+ ">") headers
  | None =>
      if Str.nonempty module then
        let module_path := dots_to_slashes module in
        if Str.eqb names "*" then
          [ "#include " +:+ DQ +:+ "reservoircpp/" +:+ module_path
            +:+ ".hpp" +:+ DQ ]
        else
          map (fun item =>
                 "#include " +:+ DQ +:+ "reservoircpp/" +:+ module_path
                 +:+ "/" +:+ Str.strip item +:+ ".hpp" +:+ DQ)
              (Str.split "," names)
      else
        map (fun item =>
               "#include " +:+ DQ +:+ Str.strip item +:+ ".hpp" +:+ DQ)
            (Str.split "," names)
  end.

(** The list [imports] when the loop ends. *)
Definition collected_imports (code : string) : list string :=
  concat (map includes_of_match (finditer import_re code)).

(** [list(set(imports))]: the elements of the set, in the order the set
    enumerates them.  Python leaves that order open; [elements] fixes one,
    and the properties below use of it only that it lists every element of
    the set once. *)
Definition emitted_includes (code : string) : list string :=
  elements (list_to_set (collected_imports code) : gset string).

Definition namespace_usage : string :=
  "using namespace reservoircpp;" +:+ LF +:+
  "using namespace Eigen;" +:+ LF +:+ LF.

Definition remove_imports (code : string) : string :=
  sub import_re (fun _ => EmptyString) code.

Definition transform_imports (code : string) : string :=
  let imports := emitted_includes code in
  let code := remove_imports code in
  let includes := Str.join LF imports +:+ LF +:+ LF in
  let includes := includes +:+ namespace_usage in
  includes +:+ code.

(** *** transform_functions *)

Definition function_re : regex :=
  cat [ Lit "def"; plus Chars.isspace; Grp 1 (plus Chars.isword);
        star Chars.isspace; Lit "("; Grp 2 (star_lazy Chars.dotall); Lit ")";
        Opt (cat [star Chars.isspace; Lit "->"; star Chars.isspace;
                  Grp 3 (plus Chars.isword)]);
        star Chars.isspace; Lit ":" ].

(** The type inferred from the lexical shape of a default value, and the
    value as it is emitted. *)
Definition infer_default (default : string) : string * string :=
  if Str.isdigit default then ("int", default)
  else if Str.isdigit (Str.remove_first "." default) then ("double", default)
  else if Str.eqb default "True" || Str.eqb default "False"
       then ("bool", Str.lower default)
  else if Str.startswith default DQ || Str.startswith default "'"
       then ("std::string", default)
  else ("auto", default).

(** One turn of the loop over [params.split(',')].  The loop assigns to
    the local [name] of [transform_function], the variable that holds the
    function's name, so the state of the loop is the pair of [name] and
    [param_list]. *)
Definition param_step (st : string * list string) (param : string)
  : string * list string :=
  let '(name, param_list) := st in
  let param := Str.strip param in
  if Str.contains "=" param then
    let '(name, default) := Str.split_once "=" param in
    let name := Str.strip name in
    let default := Str.strip default in
    let '(param_type, default) := infer_default default in
    (name, param_list ++ [param_type +:+ " " +:+ name +:+ " = " +:+ default])
  else if Str.contains ":" param then
    let '(name, type_hint) := Str.split_once ":" param in
    let name := Str.strip name in
    let type_hint := Str.strip type_hint in
    let cpp_type := cpp_type_of type_hint in
    (name, param_list ++ [cpp_type +:+ " " +:+ name])
  else
    (name, param_list ++ ["auto " +:+ param]).

Definition transform_function (m : matched) : string :=
  let name := ref 1 m in
  let params := ref 2 m in
  let return_type := group 3 m in
  let '(name, param_list) :=
    if Str.nonempty params
    then fold_left param_step (Str.split "," params) (name, [])
    else (name, []) in
  let cpp_params := Str.join ", " param_list in
  let cpp_return_type :=
    match return_type with
    | Some t => if Str.nonempty t then cpp_type_of t else "auto"
    | None => "auto"
    end in
  cpp_return_type +:+ " " +:+ name +:+ "(" +:+ cpp_params +:+ ") {".

Definition transform_functions (code : string) : string :=
  sub function_re transform_function code.

(** *** transform_classes *)

Definition class_re : regex :=
  cat [ Lit "class"; plus Chars.isspace; Grp 1 (plus Chars.isword);
        Opt (cat [star Chars.isspace; Lit "(";
                  Grp 2 (star (Chars.notchar ")")); Lit ")"]);
        star Chars.isspace; Lit ":" ].

Definition transform_class (m : matched) : string :=
  let class_name := ref 1 m in
  let inheritance := ref 2 m in
  let base_classes :=
    if Str.nonempty inheritance then
      omap (fun base =>
              let base := Str.strip base in
              if Str.nonempty base then Some ("public " +:+ base) else None)
           (Str.split "," inheritance)
    else [] in
  let inheritance_str :=
    match base_classes with
    | [] => EmptyString
    | _ => ": " +:+ Str.join ", " base_classes
    end in
  "class " +:+ class_name +:+ inheritance_str +:+ " {".

Definition method_re : regex :=
  cat [ Bol; Grp 1 (plus Chars.isspace); Lit "def"; plus Chars.isspace;
        Grp 2 (plus Chars.isword) ].

Definition method_repl (m : matched) : string :=
  ref 1 m +:+ "public:" +:+ LF +:+ ref 1 m +:+ "auto " +:+ ref 2 m.

Definition transform_classes (code : string) : string :=
  let code := sub class_re transform_class code in
  sub method_re method_repl code.

(** *** transform_variables *)

Definition assignment_re : regex :=
  cat [ Grp 1 (star Chars.isspace); Grp 2 (plus Chars.isword);
        star Chars.isspace; Lit "="; star Chars.isspace;
        Grp 3 (plus Chars.dot); Eol ].

Definition infer_type (value : string) : string :=
  let value := Str.strip value in
  if Str.isdigit value then "int"
  else if Str.isdigit (Str.remove_first "." value) then "double"
  else if Str.eqb value "True" || Str.eqb value "False" then "bool"
  else if Str.startswith value DQ || Str.startswith value "'"
       then "std::string"
  else if Str.startswith value "[" then "auto"
  else if Str.startswith value "{" then "auto"
  else if Str.startswith value "(" then "auto"
  else "auto".

Definition transform_assignment (m : matched) : string :=
  let indent := ref 1 m in
  let var_name := ref 2 m in
  let value := ref 3 m in
  if Str.startswith var_name "self." then
    indent +:+ var_name +:+ " = " +:+ value
  else
    let var_type := infer_type value in
    let value :=
      if Str.eqb var_type "bool"
         && (Str.eqb value "True" || Str.eqb value "False")
      then Str.lower value else value in
    indent +:+ var_type +:+ " " +:+ var_name +:+ " = " +:+ value.

Definition transform_variables (code : string) : string :=
  sub assignment_re transform_assignment code.

(** *** transform_control_structures *)

Definition if_re : regex :=
  cat [Lit "if"; plus Chars.isspace; Grp 1 (star_lazy Chars.dot); Lit ":"].
Definition if_repl (m : matched) : string := "if (" +:+ ref 1 m +:+ ") {".

Definition elif_re : regex :=
  cat [Lit "elif"; plus Chars.isspace; Grp 1 (star_lazy Chars.dot); Lit ":"].
Definition elif_repl (m : matched) : string :=
  "} else if (" +:+ ref 1 m +:+ ") {".

Definition else_re : regex := Lit "else:".
Definition else_repl (_ : matched) : string := "} else {".

Definition for_re : regex :=
  cat [ Lit "for"; plus Chars.isspace; Grp 1 (star_lazy Chars.dot);
        plus Chars.isspace; Lit "in"; plus Chars.isspace;
        Grp 2 (star_lazy Chars.dot); Lit ":" ].
Definition for_repl (m : matched) : string :=
  "for (auto " +:+ ref 1 m +:+ " : " +:+ ref 2 m +:+ ") {".

Definition while_re : regex :=
  cat [Lit "while"; plus Chars.isspace; Grp 1 (star_lazy Chars.dot); Lit ":"].
Definition while_repl (m : matched) : string :=
  "while (" +:+ ref 1 m +:+ ") {".

(** The five header substitutions, in the order of the source. *)
Definition rewrite_headers (code : string) : string :=
  let code := sub if_re if_repl code in
  let code := sub elif_re elif_repl code in
  let code := sub else_re else_repl code in
  let code := sub for_re for_repl code in
  sub while_re while_repl code.

Definition indentation_pattern : regex :=
  cat [Bol; Grp 1 (star (Chars.ischar " ")); Lit "def"].

Definition indentations (code : string) : list nat :=
  map (fun m => Str.len (ref 1 m)) (finditer indentation_pattern code).

Local Open Scope Z_scope.

(** [len(line) - len(line.lstrip(' '))] *)
Definition leading_spaces (line : string) : Z :=
  Z.of_nat (Str.len line)
  - Z.of_nat (Str.len (Str.lstrip_by (Chars.ischar " ") line)).

(** The state of the line scan: [new_lines] and [current_indent]. *)
Definition scan_state : Type := list string * Z.

(** The inner loop [for _ in range(levels_to_close)]: its body reads
    [current_indent] and does not change it. *)
Definition close_blocks (current_indent leading : Z) (new_lines : list string)
  : list string :=
  let levels_to_close := (current_indent - leading) / 4 in
  fold_left
    (fun new_lines _ =>
       let indent := Str.spaces (current_indent - 4) in
       new_lines ++ [indent +:+ "}"])
    (seq 0%nat (Z.to_nat levels_to_close)) new_lines.

(** The body of [for line in lines]. *)
Definition scan_line (st : scan_state) (line : string) : scan_state :=
  let '(new_lines, current_indent) := st in
  let leading := leading_spaces line in
  let new_lines :=
    if leading <? current_indent
    then close_blocks current_indent leading new_lines
    else new_lines in
  (new_lines ++ [line], leading).

(** [while current_indent > 0]: every turn lowers [current_indent] by 4,
    so [current_indent] turns are enough ([flush_fuel_enough]). *)
Fixpoint flush_loop (fuel : nat) (st : scan_state) : scan_state :=
  let '(new_lines, current_indent) := st in
  match fuel with
  | O => st
  | S fuel' =>
      if 0 <? current_indent then
        let current_indent := current_indent - 4 in
        let indent := Str.spaces current_indent in
        flush_loop fuel' (new_lines ++ [indent +:+ "}"], current_indent)
      else st
  end.

Definition flush (st : scan_state) : scan_state :=
  flush_loop (Z.to_nat (snd st)) st.

Definition synthesize_blocks (code : string) : string :=
  let lines := Str.split Chars.LF code in
  let st := fold_left scan_line lines ([], 0) in
  Str.join LF (fst (flush st)).

Definition transform_control_structures (code : string) : string :=
  let code := rewrite_headers code in
  match indentations code with
  | [] => code
  | _ :: _ => synthesize_blocks code
  end.

Local Close Scope Z_scope.

(** *** add_header_guards *)

(** [os.path.basename] and the root of [os.path.splitext] (POSIX). *)
Definition basename (path : string) : string :=
  match Str.rfind "/" path with
  | Some i => Str.drop (S i) path
  | None => path
  end.

Definition splitext_root (p : string) : string :=
  match Str.rfind "." p with
  | Some dotIndex =>
      if Str.all (Chars.ischar ".") (Str.take dotIndex p) then p
      else Str.take dotIndex p
  | None => p
  end.

Definition add_header_guards (code filename : string) : string :=
  let header_name := Str.upper (splitext_root (basename filename)) +:+ "_HPP" in
  "#ifndef RESERVOIRCPP_" +:+ header_name +:+ LF +:+
  "#define RESERVOIRCPP_" +:+ header_name +:+ LF +:+
  LF +:+
  code +:+ LF +:+
  LF +:+
  "#endif // RESERVOIRCPP_" +:+ header_name +:+ LF.

(** *** transform *)

Definition transform (code filename : string) : string :=
  if negb (Str.nonempty (Str.strip code)) then EmptyString
  else
    let code := preprocess_comments code in
    let code := transform_imports code in
    let code := transform_functions code in
    let code := transform_classes code in
    let code := transform_variables code in
    let code := transform_control_structures code in
    if Str.endswith filename ".hpp"
    then add_header_guards code filename
    else code.

End Py2CppTransformer.

(** ** The units of the scenarios

    A unit is written as the list of its lines, joined by line feeds; a
    final empty line stands for the line feed that ends the text. *)

Module Units.

Import Py2CppTransformer.

Definition text (lines : list string) : string := Str.join Str.LF lines.

(** [s.split('\n')] *)
Definition lines (s : string) : list string := Str.split Chars.LF s.

Definition quoted (s : string) : string := Str.DQ +:+ s +:+ Str.DQ.

(** A standalone closing delimiter: spaces, then a single closing brace. *)
Definition closing_line (line : string) : bool :=
  Str.eqb (Str.lstrip_by (Chars.ischar " ") line) "}".

(** A blank line: no characters, or only whitespace. *)
Definition blank (line : string) : bool :=
  negb (Str.nonempty (Str.strip line)).

(** The two namespace-usage directives. *)
Definition using_reservoircpp : string := "using namespace reservoircpp;".
Definition using_eigen : string := "using namespace Eigen;".

(** The include directives the library table maps [numpy] to. *)
Definition numpy_includes : list string :=
  ["#include <Eigen/Dense>"; "#include <Eigen/Sparse>";
   "#include <reservoircpp/numpy.hpp>"].

Definition scenario_A : string :=
  text ["def add(a: int, b: int) -> int:"; "    return a + b"; ""].

Definition scenario_B : string :=
  text ["x = 5"; "y = " +:+ quoted "hi"; "if x > 0:"; "    print(y)"; ""].

Definition scenario_C : string := text ["import numpy"; ""].

(** A unit importing the same module twice. *)
Definition twice_os : string := text ["import os"; "import os"; ""].

(** Two levels closed by one line, as [transform_control_structures]
    receives it and as [transform] does. *)
Definition two_levels : string :=
  text ["def f"; "    g"; "        a"; "b"].

Definition two_levels_unit : string :=
  text ["defer()"; "    a"; "        b"; "c"; ""].

(** A block body with and without a blank line in it. *)
Definition body_with_blank : string := text ["def f"; "    a"; ""; "    b"].
Definition body_without_blank : string := text ["def f"; "    a"; "    b"].

(** An import statement whose name opens a function header. *)
Definition header_in_import : string :=
  text ["import def f(a:"; "x):"; ""].

(** The six rewriting passes of [transform], in its order. *)
Definition passes (code : string) : string :=
  transform_control_structures
    (transform_variables
       (transform_classes
          (transform_functions
             (transform_imports (preprocess_comments code))))).

(** The lines the block synthesis makes of the lines of a unit: the scan,
    then the flush ([synthesize_blocks] splits, does this, and joins). *)
Definition synthesized_lines (lines : list string) : list string :=
  fst (flush (fold_left scan_line lines ([], 0%Z))).

(** The sum of the increases along a sequence of indentations that starts
    from [current]. *)
Fixpoint rises (current : Z) (indents : list Z) : Z :=
  match indents with
  | [] => 0%Z
  | i :: rest => (Z.max 0 (i - current) + rises i rest)%Z
  end.

(** A parameter with neither a default value nor an annotation. *)
Definition plain_param (param : string) : Prop :=
  Str.contains "=" (Str.strip param) = false
  /\ Str.contains ":" (Str.strip param) = false.

(** [p in s]: the text [p] occurs somewhere in [s]. *)
Fixpoint occurs (p s : string) : bool :=
  Str.startswith s p
  || match s with
     | String _ t => occurs p t
     | EmptyString => false
     end.

(** A pattern that has the literal text [p] on every way through it:
    inside a literal outside every optional part. *)
Fixpoint must_read (p : string) (r : Re.regex) : bool :=
  match r with
  | Re.Lit s => occurs p s
  | Re.Grp _ r' => must_read p r'
  | Re.Seq r1 r2 => must_read p r1 || must_read p r2
  | Re.Rep _ _ _ | Re.Opt _ | Re.Bol | Re.Eol => false
  end.

(** A header pattern of the control-flow pass: a keyword, blanks, a
    condition as short as can be, a colon ([if_re], [elif_re] and
    [while_re] are this pattern at their keyword). *)
Definition keyword_re (keyword : string) : Re.regex :=
  Re.cat [ Re.Lit keyword; Re.plus Chars.isspace;
           Re.Grp 1 (Re.star_lazy Chars.dot); Re.Lit ":" ].

(** The text of a condition as a header holds it: on one line, with no
    colon in it and no blank in front. *)
Definition condition (cond : string) : Prop :=
  Str.all Chars.dot cond = true
  /\ Str.contains ":" cond = false
  /\ Str.lstrip_by Chars.isspace cond = cond.

(** One blank or more. *)
Definition blanks (ws : string) : Prop :=
  Str.nonempty ws = true /\ Str.all Chars.isspace ws = true.

(** A run of the decimal digits 0 to 9, possibly empty. *)
Definition decimal (s : string) : Prop :=
  Str.all (Chars.between 48 57) s = true.

(** The types [infer_type] can give. *)
Definition inferred_types : list string :=
  ["int"; "double"; "bool"; "std::string"; "auto"].

End Units.

(** * Properties *)

Import Py2CppTransformer Units.

(** ** The matcher *)

Ltac evaluate := vm_compute; reflexivity.

Lemma ischar_eq a b : Chars.ischar a b = true -> a = b.
Proof.
  unfold Chars.ischar, Chars.code. intros H. apply N.eqb_eq in H.
  rewrite <- (ascii_N_embedding a), <- (ascii_N_embedding b). now rewrite H.
Qed.

Section Cursors.

Import Re.

Lemma groups_forward n : forall c, groups (forward n c) = groups c.
Proof.
  induction n as [|n IH]; intros c; simpl; [reflexivity |].
  destruct (rest c); [reflexivity |]. now rewrite IH.
Qed.

Lemma pos_forward_ge n : forall c, pos c <= pos (forward n c).
Proof.
  induction n as [|n IH]; intros c; simpl; [lia |].
  destruct (rest c); [lia |]. specialize (IH (advance a s c)). simpl in IH. lia.
Qed.

(** The text between a cursor and the cursor [n] characters further. *)
Lemma take_forward n :
  forall c, Str.take (pos (forward n c) - pos c) (rest c) = Str.take n (rest c).
Proof.
  induction n as [|n IH]; intros c; simpl.
  - now rewrite Nat.sub_diag.
  - destruct (rest c) as [|a t] eqn:E.
    + rewrite Nat.sub_diag. reflexivity.
    + pose proof (pos_forward_ge n (advance a t c)) as Hge.
      specialize (IH (advance a t c)). simpl in IH, Hge.
      replace (pos (forward n (advance a t c)) - pos c)
        with (S (pos (forward n (advance a t c)) - S (pos c))) by lia.
      simpl. now rewrite IH.
Qed.

Lemma eat_groups lit : forall c c', eat lit c = Some c' -> groups c' = groups c.
Proof.
  induction lit as [|a lit IH]; intros c c' H; simpl in H.
  - now inversion H.
  - destruct (rest c) as [|b t]; [discriminate |].
    destruct (Chars.ischar a b); [|discriminate].
    now rewrite (IH _ _ H).
Qed.

(** A greedy quantifier hands to its continuation a cursor that lies some
    characters of the class further on. *)
Lemma greedy_sound cls k s :
  forall least c r,
    rest c = s ->
    greedy cls k s least c = Some r ->
    exists n, Str.all cls (Str.take n s) = true /\ k (forward n c) = Some r.
Proof.
  induction s as [|a t IH]; intros least c r Hrest H; simpl in H.
  - destruct least; [|discriminate]. exists 0. now split.
  - assert (Hstop : match least with O => k c | S _ => None end = Some r ->
                    exists n, Str.all cls (Str.take n (String a t)) = true
                              /\ k (forward n c) = Some r).
    { destruct least; [|discriminate]. intros Hk. exists 0. now split. }
    destruct (cls a) eqn:Ea; [|now apply Hstop].
    destruct (greedy cls k t (Nat.pred least) (advance a t c)) as [r'|] eqn:Eg.
    + simpl in H. inversion H; subst r'.
      destruct (IH _ (advance a t c) _ eq_refl Eg) as (n & Hall & Hk).
      exists (S n). simpl. rewrite Hrest, Ea, Hall. now split.
    + now apply Hstop.
Qed.

Lemma lazy_sound cls k s :
  forall least c r,
    rest c = s ->
    lazy cls k s least c = Some r ->
    exists n, Str.all cls (Str.take n s) = true /\ k (forward n c) = Some r.
Proof.
  induction s as [|a t IH]; intros least c r Hrest H; simpl in H.
  - destruct least; [|discriminate].
    destruct (k c) eqn:Ek; [|discriminate]. simpl in H.
    exists 0. split; [reflexivity |]. simpl. congruence.
  - assert (Hmore : (if cls a then lazy cls k t (Nat.pred least) (advance a t c)
                     else None) = Some r ->
                    exists n, Str.all cls (Str.take n (String a t)) = true
                              /\ k (forward n c) = Some r).
    { destruct (cls a) eqn:Ea; [|discriminate]. intros Hl.
      destruct (IH _ (advance a t c) _ eq_refl Hl) as (n & Hall & Hk).
      exists (S n). simpl. rewrite Hrest, Ea, Hall. now split. }
    destruct least; [|now apply Hmore].
    destruct (k c) eqn:Ek; simpl in H.
    + exists 0. split; [reflexivity |]. simpl. congruence.
    + now apply Hmore.
Qed.

(** When a pattern matches, its continuation was given a cursor whose
    groups are those of the start, but for the groups of the pattern. *)
Lemma run_sound r :
  forall c k cf,
    run r c k = Some cf ->
    exists c',
      k c' = Some cf /\
      forall n, ~ In n (group_numbers r) ->
                lookup_group n (groups c') = lookup_group n (groups c).
Proof.
  induction r as [lit | g least cls | n r IH | r IH | r1 IH1 r2 IH2 | |];
    intros c k cf H; simpl in H.
  - destruct (eat lit c) as [c'|] eqn:E; [|discriminate].
    exists c'. split; [exact H |]. intros i _. now rewrite (eat_groups _ _ _ E).
  - assert (Hq : exists m, k (forward m c) = Some cf).
    { destruct g.
      - destruct (greedy_sound _ _ _ _ _ _ eq_refl H) as (m & _ & Hk). eauto.
      - destruct (lazy_sound _ _ _ _ _ _ eq_refl H) as (m & _ & Hk). eauto. }
    destruct Hq as (m & Hk). exists (forward m c). split; [exact Hk |].
    intros i _. now rewrite groups_forward.
  - destruct (IH _ _ _ H) as (c' & Hk & Hg).
    exists (set_group n c c'). split; [exact Hk |].
    intros i Hi. simpl in *.
    destruct (Nat.eqb n i) eqn:E.
    + apply Nat.eqb_eq in E. tauto.
    + apply Hg. tauto.
  - destruct (run r c k) as [x|] eqn:E; simpl in H.
    + inversion H; subst x. exact (IH _ _ _ E).
    + exists c. now split.
  - destruct (IH1 _ _ _ H) as (c1 & H2 & Hg1).
    destruct (IH2 _ _ _ H2) as (c2 & Hk & Hg2).
    exists c2. split; [exact Hk |].
    intros i Hi. simpl in Hi. rewrite in_app_iff in Hi.
    rewrite Hg2, Hg1; tauto.
  - destruct (at_bol c); [|discriminate]. exists c. now split.
  - destruct (at_eol c); [|discriminate]. exists c. now split.
Qed.

(** What a group made of one quantified class captures is made of
    characters of the class. *)
Lemma group_of_class n g least cls c k cf :
  run (Grp n (Rep g least cls)) c k = Some cf ->
  exists c' w,
    k c' = Some cf /\
    Str.all cls w = true /\
    groups c' = (n, w) :: groups c.
Proof.
  simpl. intros H.
  assert (Hq : exists m, Str.all cls (Str.take m (rest c)) = true
                         /\ k (set_group n c (forward m c)) = Some cf).
  { destruct g.
    - exact (greedy_sound _ _ _ _ _ _ eq_refl H).
    - exact (lazy_sound _ _ _ _ _ _ eq_refl H). }
  destruct Hq as (m & Hall & Hk).
  exists (set_group n c (forward m c)), (Str.take m (rest c)).
  split; [exact Hk |]. split; [exact Hall |].
  unfold set_group. simpl. now rewrite take_forward, groups_forward.
Qed.

End Cursors.

Lemma sub_from_no_match r repl s :
  forall before,
    Re.finditer_from r before s 0 = [] ->
    Re.sub_from r repl before s 0 = s.
Proof.
  induction s as [|a t IH]; intros before H; simpl in *.
  - destruct (Re.match_at r before EmptyString); [discriminate | reflexivity].
  - destruct (Re.match_at r before (String a t)); [discriminate |].
    f_equal. now apply IH.
Qed.

(** A substitution whose pattern is found nowhere leaves the text as it is. *)
Lemma sub_no_match r repl s : Re.finditer r s = [] -> Re.sub r repl s = s.
Proof. apply sub_from_no_match. Qed.

(** ** transform *)

Lemma transform_source_unit code filename :
  Str.nonempty (Str.strip code) = true ->
  Str.endswith filename ".hpp" = false ->
  transform code filename = passes code.
Proof.
  intros Hcode Hname. unfold transform, passes.
  now rewrite Hcode, Hname.
Qed.

(** C1 (as the code has it). Scenario B, written to a unit that is not a
    header: the two bindings are typed, the header of the conditional is
    rewritten and its body kept, and nothing follows the body but the end of
    the text: no line starts with [def], so the block synthesis is not
    entered and no closing delimiter is emitted. *)
Theorem scenario_B_output filename :
  Str.endswith filename ".hpp" = false ->
  transform scenario_B filename =
    text [ ""; "";
           using_reservoircpp; using_eigen; "";
           "int x = 5";
           "std::string y = " +:+ quoted "hi";
           "if (x > 0) {";
           "    print(y)";
           "" ].
Proof.
  intros Hname. rewrite transform_source_unit by (reflexivity || exact Hname).
  evaluate.
Qed.

Lemma scenario_B_output_witness :
  Str.endswith "out.cpp" ".hpp" = false /\
  transform scenario_B "out.cpp" =
    text [ ""; "";
           using_reservoircpp; using_eigen; "";
           "int x = 5";
           "std::string y = " +:+ quoted "hi";
           "if (x > 0) {";
           "    print(y)";
           "" ].
Proof. split; [reflexivity | apply (scenario_B_output "out.cpp"); reflexivity]. Defined.

(** C1 (as the spec has it) fails: no line of the output of Scenario B is a
    closing delimiter. *)
Lemma scenario_B_no_closing_delimiter :
  ~ exists line,
      In line (lines (transform scenario_B "out.cpp")) /\
      closing_line line = true.
Proof.
  intros (line & Hin & Hclose).
  assert (Hall : forallb (fun l => negb (closing_line l))
                   (lines (transform scenario_B "out.cpp")) = true)
    by evaluate.
  rewrite forallb_forall in Hall. specialize (Hall line Hin).
  rewrite Hclose in Hall. discriminate.
Qed.

(** ** The line scan of the block synthesis *)

Section LineScan.

Local Open Scope Z_scope.

Lemma fold_left_append_const {A B} (x : A) (l : list B) :
  forall acc, fold_left (fun acc _ => acc ++ [x]) l acc
              = acc ++ repeat x (length l).
Proof.
  induction l as [|b l IH]; intros acc; simpl.
  - now rewrite app_nil_r.
  - rewrite IH, <- app_assoc. reflexivity.
Qed.

(** The closing delimiters of one decrease are all the same line: the
    inner loop never lowers [current_indent]. *)
Lemma close_blocks_repeat current_indent leading new_lines :
  close_blocks current_indent leading new_lines =
    new_lines
    ++ repeat (Str.spaces (current_indent - 4) +:+ "}")
         (Z.to_nat ((current_indent - leading) / 4)).
Proof.
  unfold close_blocks. rewrite fold_left_append_const.
  now rewrite length_seq.
Qed.

(** What scanning one line does, whatever the line is. *)
Lemma scan_line_spec new_lines current_indent line :
  scan_line (new_lines, current_indent) line =
    (new_lines
     ++ repeat (Str.spaces (current_indent - 4) +:+ "}")
          (if leading_spaces line <? current_indent
           then Z.to_nat ((current_indent - leading_spaces line) / 4)
           else 0%nat)
     ++ [line],
     leading_spaces line).
Proof.
  unfold scan_line. destruct (leading_spaces line <? current_indent).
  - rewrite close_blocks_repeat, <- app_assoc. reflexivity.
  - reflexivity.
Qed.

Lemma flush_loop_done fuel :
  forall st, (Z.to_nat (snd st) <= fuel)%nat -> snd (flush_loop fuel st) <= 0.
Proof.
  induction fuel as [|fuel IH]; intros [new_lines current_indent] H;
    simpl in *.
  - lia.
  - destruct (0 <? current_indent) eqn:E.
    + apply IH. simpl. apply Z.ltb_lt in E. lia.
    + apply Z.ltb_ge in E. exact E.
Qed.

(** The fuel of [flush] is enough: when it returns, the condition of the
    [while] loop is false. *)
Lemma flush_fuel_enough st : snd (flush st) <= 0.
Proof. apply flush_loop_done. lia. Qed.

(** More fuel changes nothing. *)
Lemma flush_loop_more fuel :
  forall st extra,
    (Z.to_nat (snd st) <= fuel)%nat ->
    flush_loop (fuel + extra) st = flush_loop fuel st.
Proof.
  induction fuel as [|fuel IH]; intros [new_lines current_indent] extra H;
    simpl in *.
  - destruct extra; simpl; [reflexivity |].
    destruct (0 <? current_indent) eqn:E; [|reflexivity].
    apply Z.ltb_lt in E. lia.
  - destruct (0 <? current_indent) eqn:E; [|reflexivity].
    apply IH. simpl. apply Z.ltb_lt in E. lia.
Qed.

(** C2 (as the code has it). A blank line is scanned like every other
    line: [current_indent] becomes the blank line's own count of leading
    spaces, and when that count is below [current_indent], the closing
    delimiters of the decrease are emitted before the line.  The line with
    no characters counts 0 leading spaces; the scan leaves
    [current_indent] as it was, and emits nothing, when the count of the
    blank line equals [current_indent]. *)
Theorem blank_line_scan new_lines current_indent line :
  blank line = true ->
  scan_line (new_lines, current_indent) line =
    (new_lines
     ++ repeat (Str.spaces (current_indent - 4) +:+ "}")
          (if leading_spaces line <? current_indent
           then Z.to_nat ((current_indent - leading_spaces line) / 4)
           else 0%nat)
     ++ [line],
     leading_spaces line)
  /\ (line = EmptyString -> leading_spaces line = 0)
  /\ (leading_spaces line = current_indent ->
      scan_line (new_lines, current_indent) line
      = (new_lines ++ [line], current_indent)).
Proof.
  intros _. split; [apply scan_line_spec |]. split.
  - intros ->. reflexivity.
  - intros Heq. rewrite scan_line_spec, Heq, Z.ltb_irrefl. reflexivity.
Qed.

Lemma blank_line_scan_witness :
  blank EmptyString = true /\
  scan_line (["def f"; "    a"], 4) EmptyString
  = (["def f"; "    a"; "}"; EmptyString], 0).
Proof.
  split; [reflexivity |].
  exact (proj1 (blank_line_scan ["def f"; "    a"] 4 EmptyString eq_refl)).
Defined.

(** C2 (as the spec has it) fails: the empty line inside a block of
    indentation 4 closes the block and resets [current_indent]. *)
Lemma blank_line_perturbs :
  ~ (forall new_lines current_indent line,
       blank line = true ->
       scan_line (new_lines, current_indent) line
       = (new_lines ++ [line], current_indent)).
Proof.
  intros H. specialize (H [] 4 EmptyString eq_refl). discriminate H.
Qed.

(** The same on a whole unit: the blank line adds a closing delimiter. *)
Example blank_line_in_body :
  transform_control_structures body_with_blank
  = text ["def f"; "    a"; "}"; ""; "    b"; "}"]
  /\ transform_control_structures body_without_blank
     = text ["def f"; "    a"; "    b"; "}"].
Proof. split; evaluate. Qed.

(** C3 (the code at the failing input). One line closes two levels: both
    closing delimiters are emitted at indentation 4, where the innermost
    is to stand at 4 and the next at 0. *)
Theorem two_levels_same_indent :
  transform_control_structures two_levels
  = text ["def f"; "    g"; "        a"; "    }"; "    }"; "b"]
  /\ transform two_levels_unit "out.cpp"
     = text [ ""; ""; using_reservoircpp; using_eigen; "";
              "defer()"; "    a"; "        b"; "    }"; "    }"; "c"; "" ].
Proof. split; evaluate. Qed.

End LineScan.

(** ** Declarations, control flow and variable bindings *)

(** C4 (the code at the failing input). Scenario A: the loop over the
    parameters overwrites the function's name with the name of the last
    annotated parameter, so the header names the function [b]; and the
    header no longer starts with [def] when the block synthesis looks for
    one, so no closing delimiter follows the body. *)
Theorem scenario_A_output :
  transform scenario_A "out.cpp" =
    text [ ""; "";
           using_reservoircpp; using_eigen; "";
           "int b(int a, int b) {";
           "    return a + b";
           "" ].
Proof. evaluate. Qed.

(** The name is kept when no parameter has an annotation or a default. *)
Example header_without_annotations :
  transform_functions "def add(a, b):" = "auto add(auto a, auto b) {".
Proof. evaluate. Qed.

(** C5 (the code at the failing input). The substitution for [if] runs
    first and rewrites the [if] inside [elif]; the substitution for [elif]
    then finds no colon left, and the line keeps its [elif]. *)
Theorem elif_line_output :
  transform_control_structures "elif x > 0:" = "elif (x > 0) {"
  /\ Re.sub if_re if_repl "elif x > 0:" = "elif (x > 0) {"
  /\ Re.finditer elif_re "elif (x > 0) {" = []
  /\ Re.sub elif_re elif_repl "elif x > 0:" = "} else if (x > 0) {".
Proof. split; [|split; [|split]]; evaluate. Qed.

(** ** The guard of [transform_assignment] *)

Lemma run_seq r1 r2 c k :
  Re.run (Re.Seq r1 r2) c k = Re.run r1 c (fun c' => Re.run r2 c' k).
Proof. reflexivity. Qed.

Lemma startswith_all cls :
  forall p w,
    Str.startswith w p = true -> Str.all cls w = true -> Str.all cls p = true.
Proof.
  induction p as [|a p IH]; intros w Hpre Hall; [reflexivity |].
  destruct w as [|b w]; simpl in *; [discriminate |].
  apply andb_true_iff in Hpre as [Hab Hpre].
  apply andb_true_iff in Hall as [Hb Hall].
  apply ischar_eq in Hab. subst b. rewrite Hb. simpl. now apply (IH w).
Qed.

(** The name group of a match of the assignment pattern holds word
    characters only. *)
Lemma assignment_name_is_word before s m :
  Re.match_at assignment_re before s = Some m ->
  exists w, Re.group 2 m = Some w /\ Str.all Chars.isword w = true.
Proof.
  unfold Re.match_at.
  destruct (Re.run assignment_re _ Some) as [cf|] eqn:E; [|discriminate].
  intros H. inversion H; subst m; clear H.
  unfold Re.group. simpl Re.captures.
  unfold assignment_re, Re.cat in E. cbn [fold_right] in E.
  rewrite run_seq in E.
  apply run_sound in E. destruct E as (c1 & E & _). cbv beta in E.
  rewrite run_seq in E. unfold Re.plus in E.
  apply group_of_class in E. destruct E as (c2 & w & E & Hall & Hg2).
  cbv beta in E.
  apply run_sound in E. destruct E as (c3 & E & Hg3).
  inversion E; subst c3; clear E.
  exists w. split; [|exact Hall].
  rewrite Hg3, Hg2; [simpl; reflexivity |].
  simpl. intros [H | []]. discriminate H.
Qed.

(** So the branch that is to skip the fields of [self] is never taken:
    whatever the text, a match of the assignment pattern is rewritten with a
    type before the name. *)
Lemma self_guard_unreachable before s m :
  Re.match_at assignment_re before s = Some m ->
  Str.startswith (Re.ref 2 m) "self." = false.
Proof.
  intros H. destruct (assignment_name_is_word _ _ _ H) as (w & Hg & Hall).
  unfold Re.ref. rewrite Hg.
  destruct (Str.startswith w "self.") eqn:E; [|reflexivity].
  pose proof (startswith_all Chars.isword _ _ E Hall) as Hdot.
  vm_compute in Hdot. discriminate Hdot.
Qed.

(** C7 (the code at the failing input). The name group of the assignment
    pattern holds word characters only, so it starts after [self.], and the
    type is inserted between the prefix and the field. *)
Theorem self_field_output :
  transform_variables "self.x = 5" = "self.int x = 5"
  /\ transform_variables "        self.count = 0" = "        self.int count = 0".
Proof. split; evaluate. Qed.

(** ** Imports *)

(** C6 (as the code has it). For [import numpy] the module group of the
    pattern is empty, the library table is not consulted, and the statement
    becomes the single directive of a direct import, followed by the two
    namespace directives; the import line itself is removed.  The table is
    consulted for [from numpy import ...], which gives the three mapped
    directives. *)
Theorem scenario_C_output :
  transform_imports scenario_C =
    text [ "#include " +:+ quoted "numpy.hpp"; "";
           using_reservoircpp; using_eigen; ""; ""; "" ]
  /\ transform scenario_C "out.cpp" = transform_imports scenario_C
  /\ Permutation (emitted_includes (text ["from numpy import array"; ""]))
                 numpy_includes.
Proof.
  split; [evaluate |]. split; [evaluate |].
  assert (E : emitted_includes (text ["from numpy import array"; ""])
              = [ "#include <Eigen/Sparse>"; "#include <Eigen/Dense>";
                  "#include <reservoircpp/numpy.hpp>" ])
    by evaluate.
  rewrite E. unfold numpy_includes. apply perm_swap.
Qed.

(** C6 (as the spec has it) fails: no line of the output of Scenario C is
    one of the directives mapped for [numpy]. *)
Lemma scenario_C_no_numpy_includes :
  ~ exists line,
      In line (lines (transform scenario_C "out.cpp")) /\
      In line numpy_includes.
Proof.
  intros (line & Hin & Hnumpy).
  assert (Hall : forallb (fun l => negb (existsb (Str.eqb l) numpy_includes))
                   (lines (transform scenario_C "out.cpp")) = true)
    by evaluate.
  rewrite forallb_forall in Hall. specialize (Hall line Hin).
  apply negb_true_iff in Hall.
  assert (Hex : existsb (Str.eqb line) numpy_includes = true).
  { apply existsb_exists. exists line. split; [exact Hnumpy |].
    unfold Str.eqb. apply bool_decide_eq_true_2. reflexivity. }
  rewrite Hall in Hex. discriminate Hex.
Qed.

Lemma append_assoc (a b c : string) : (a +:+ b) +:+ c = a +:+ (b +:+ c).
Proof.
  induction a as [|x a IH]; [reflexivity |].
  change (String x ((a +:+ b) +:+ c) = String x (a +:+ (b +:+ c))).
  now rewrite IH.
Qed.

(** The text the import resolver returns: the include list, an empty line,
    the two namespace directives, an empty line, and the code without its
    import statements. *)
Lemma transform_imports_shape code :
  transform_imports code =
    Str.join Str.LF (emitted_includes code) +:+ Str.LF +:+ Str.LF
    +:+ using_reservoircpp +:+ Str.LF +:+ using_eigen +:+ Str.LF +:+ Str.LF
    +:+ remove_imports code.
Proof.
  unfold transform_imports, namespace_usage, using_reservoircpp, using_eigen.
  now rewrite !append_assoc.
Qed.

Lemma emitted_includes_NoDup code : List.NoDup (emitted_includes code).
Proof. unfold emitted_includes. apply NoDup_ListNoDup. apply NoDup_elements. Qed.

(** The include list holds the directives the import statements resolve
    to, and nothing else. *)
Lemma emitted_includes_In code directive :
  In directive (emitted_includes code) <-> In directive (collected_imports code).
Proof.
  unfold emitted_includes.
  now rewrite <- !list_elem_of_In, elem_of_elements, elem_of_list_to_set.
Qed.

(** C8. Every directive an import statement of the unit resolves to, be it
    once or several times, stands exactly once in the include list, and
    that list is what the import resolver puts at the top of its output. *)
Theorem include_emitted_once code directive :
  In directive (collected_imports code) ->
  count_occ string_dec (emitted_includes code) directive = 1
  /\ transform_imports code =
       Str.join Str.LF (emitted_includes code) +:+ Str.LF +:+ Str.LF
       +:+ using_reservoircpp +:+ Str.LF +:+ using_eigen +:+ Str.LF +:+ Str.LF
       +:+ remove_imports code.
Proof.
  intros Hin. split; [| apply transform_imports_shape].
  apply NoDup_count_occ'; [apply emitted_includes_NoDup |].
  now apply emitted_includes_In.
Qed.

Lemma include_emitted_once_witness :
  count_occ string_dec (collected_imports twice_os)
    ("#include " +:+ quoted "os.hpp") = 2
  /\ count_occ string_dec (emitted_includes twice_os)
       ("#include " +:+ quoted "os.hpp") = 1.
Proof.
  split; [evaluate |].
  apply (include_emitted_once twice_os ("#include " +:+ quoted "os.hpp")).
  vm_compute. left. reflexivity.
Defined.

(** Two units whose import statements resolve to the same directives have
    the same include list up to order. *)
Lemma emitted_includes_set code1 code2 :
  (forall d, In d (collected_imports code1) <-> In d (collected_imports code2)) ->
  Permutation (emitted_includes code1) (emitted_includes code2).
Proof.
  intros H. apply NoDup_Permutation.
  - unfold emitted_includes. apply NoDup_elements.
  - unfold emitted_includes. apply NoDup_elements.
  - intros d. rewrite !list_elem_of_In, !emitted_includes_In. apply H.
Qed.

Example twice_os_output :
  transform_imports twice_os =
    text [ "#include " +:+ quoted "os.hpp"; "";
           using_reservoircpp; using_eigen; ""; ""; ""; "" ].
Proof. evaluate. Qed.

(** C10 (as the code has it). Whatever the unit, the import resolver
    returns the include list, an empty line, the two namespace directives,
    an empty line and the rest of the code; for a unit with no import
    statement the include list is empty and the code follows unchanged. *)
Theorem namespace_usage_prepended code :
  transform_imports code =
    Str.join Str.LF (emitted_includes code) +:+ Str.LF +:+ Str.LF
    +:+ using_reservoircpp +:+ Str.LF +:+ using_eigen +:+ Str.LF +:+ Str.LF
    +:+ remove_imports code
  /\ (Re.finditer import_re code = [] ->
      transform_imports code =
        Str.LF +:+ Str.LF
        +:+ using_reservoircpp +:+ Str.LF +:+ using_eigen +:+ Str.LF +:+ Str.LF
        +:+ code).
Proof.
  split; [apply transform_imports_shape |].
  intros Hnone. rewrite transform_imports_shape.
  unfold emitted_includes, collected_imports, remove_imports.
  rewrite Hnone, (sub_no_match _ _ _ Hnone). simpl concat.
  assert (E : elements (list_to_set [] : gset string) = []) by apply elements_empty.
  rewrite E. reflexivity.
Qed.

Lemma namespace_usage_prepended_witness :
  Re.finditer import_re scenario_B = [] /\
  transform_imports scenario_B =
    Str.LF +:+ Str.LF
    +:+ using_reservoircpp +:+ Str.LF +:+ using_eigen +:+ Str.LF +:+ Str.LF
    +:+ scenario_B.
Proof.
  split; [evaluate |].
  apply (proj2 (namespace_usage_prepended scenario_B)).
  evaluate.
Defined.

(** C10 (as the spec has it) fails: the function pattern spans lines, and
    a header that opens inside an include directive takes the two namespace
    directives into its parameter list, where the annotation is dropped. *)
Lemma namespace_usage_lost :
  ~ (forall code filename,
       transform code filename <> EmptyString ->
       In using_reservoircpp (lines (transform code filename))
       /\ In using_eigen (lines (transform code filename))).
Proof.
  intros H. specialize (H header_in_import "out.cpp").
  assert (E : lines (transform header_in_import "out.cpp")
              = ["#include " +:+ Str.DQ +:+ "auto a(auto a) {"; EmptyString])
    by evaluate.
  rewrite E in H. destruct H as [[H | [H | []]] _].
  - intros Hempty. rewrite Hempty in E. vm_compute in E. discriminate E.
  - vm_compute in H. discriminate H.
  - vm_compute in H. discriminate H.
Qed.

(** C9. A unit that is empty once its whitespace is trimmed is
    transformed into the empty text, whatever the name of the output unit:
    a header gets no include guard either.  [transform] is a function, so
    nothing is raised. *)
Theorem empty_unit_output code filename :
  Str.strip code = EmptyString -> transform code filename = EmptyString.
Proof. intros H. unfold transform. rewrite H. reflexivity. Qed.

Lemma empty_unit_output_witness :
  Str.strip (text ["  "; " "; ""]) = EmptyString
  /\ transform (text ["  "; " "; ""]) "unit.hpp" = EmptyString.
Proof.
  split; [reflexivity |].
  apply (empty_unit_output (text ["  "; " "; ""]) "unit.hpp"). reflexivity.
Defined.

(** * Further properties of the passes *)

(** ** Text *)

Section Text.

Lemma len_append a b : Str.len (a +:+ b) = Str.len a + Str.len b.
Proof.
  induction a as [|x a IH]; [reflexivity |].
  change (S (Str.len (a +:+ b)) = S (Str.len a + Str.len b)). now rewrite IH.
Qed.

Lemma len_spaces n : Str.len (Str.spaces_nat n) = n.
Proof. induction n as [|n IH]; simpl; [reflexivity | now rewrite IH]. Qed.

Lemma len_lstrip_le p s : Str.len (Str.lstrip_by p s) <= Str.len s.
Proof.
  induction s as [|a s IH]; simpl; [lia |].
  destruct (p a); simpl; lia.
Qed.

Lemma startswith_empty s : Str.startswith s EmptyString = true.
Proof. now destruct s. Qed.

Lemma lstrip_spaces n s :
  Str.startswith s " " = false ->
  Str.lstrip_by (Chars.ischar " ") (Str.spaces_nat n +:+ s) = s.
Proof.
  intros Hs. induction n as [|n IH].
  - change (Str.lstrip_by (Chars.ischar " ") s = s).
    destruct s as [|a s]; [reflexivity |]. simpl in *.
    rewrite startswith_empty, andb_true_r in Hs. now rewrite Hs.
  - change (Str.lstrip_by (Chars.ischar " ")
              (String " " (Str.spaces_nat n +:+ s)) = s).
    simpl. exact IH.
Qed.

End Text.

(** ** The block synthesis *)

Section BlockSynthesis.

Local Open Scope Z_scope.

Lemma leading_spaces_nonneg line : 0 <= leading_spaces line.
Proof.
  unfold leading_spaces.
  pose proof (len_lstrip_le (Chars.ischar " ") line). lia.
Qed.

(** X1. The leading-space count of a line is the number of spaces it
    starts with: [n] spaces followed by text that does not start with a
    space count [n], whatever follows (tabs are not counted). *)
Theorem leading_spaces_count n s :
  Str.startswith s " " = false ->
  leading_spaces (Str.spaces_nat n +:+ s) = Z.of_nat n.
Proof.
  intros Hs. unfold leading_spaces.
  rewrite (lstrip_spaces n s Hs), len_append, len_spaces. lia.
Qed.

Lemma leading_spaces_count_witness :
  Str.startswith (String (ascii_of_N 9) "return x") " " = false
  /\ leading_spaces (Str.spaces_nat 8 +:+ String (ascii_of_N 9) "return x")
     = Z.of_nat 8.
Proof.
  split; [reflexivity |].
  apply (leading_spaces_count 8 (String (ascii_of_N 9) "return x")).
  reflexivity.
Defined.

Ltac div_lia := Z.div_mod_to_equations; lia.

Lemma flush_loop_spec fuel :
  forall new_lines current_indent,
    (Z.to_nat current_indent <= fuel)%nat ->
    flush_loop fuel (new_lines, current_indent) =
      (new_lines
       ++ map (fun i => Str.spaces (current_indent - 4 * (Z.of_nat i + 1))
                        +:+ "}")
              (seq 0 (Z.to_nat ((current_indent + 3) / 4))),
       current_indent - 4 * Z.of_nat (Z.to_nat ((current_indent + 3) / 4))).
Proof.
  induction fuel as [|fuel IH]; intros new_lines cur Hfuel.
  - assert (E : Z.to_nat ((cur + 3) / 4) = 0%nat) by div_lia.
    rewrite E. simpl. rewrite app_nil_r. f_equal. lia.
  - simpl. destruct (0 <? cur) eqn:Hpos.
    + apply Z.ltb_lt in Hpos.
      assert (E : Z.to_nat ((cur + 3) / 4)
                  = S (Z.to_nat ((cur - 4 + 3) / 4))) by div_lia.
      rewrite IH by lia. rewrite E. cbn [seq map].
      rewrite <- seq_shift, map_map, <- app_assoc. cbn [app].
      f_equal; [|lia]. f_equal. f_equal.
      apply map_ext. intros i. f_equal. f_equal. lia.
    + apply Z.ltb_ge in Hpos.
      assert (E : Z.to_nat ((cur + 3) / 4) = 0%nat) by div_lia.
      rewrite E. simpl. rewrite app_nil_r. f_equal. lia.
Qed.

Lemma flush_result new_lines current_indent :
  flush (new_lines, current_indent) =
    (new_lines
     ++ map (fun i => Str.spaces (current_indent - 4 * (Z.of_nat i + 1))
                      +:+ "}")
            (seq 0 (Z.to_nat ((current_indent + 3) / 4))),
     current_indent - 4 * Z.of_nat (Z.to_nat ((current_indent + 3) / 4))).
Proof. unfold flush. now rewrite flush_loop_spec by (simpl; lia). Qed.

(** X2. The flush at the end of the unit: from [current_indent] it emits
    one closing delimiter per started level of 4, the first indented by
    [current_indent - 4] and each next one 4 less (an indentation that
    would be negative is no indentation), and it leaves the counter above
    -4 and not above 0. *)
Theorem flush_spec new_lines current_indent :
  let levels := Z.to_nat ((current_indent + 3) / 4) in
  flush (new_lines, current_indent) =
    (new_lines
     ++ map (fun i => Str.spaces (current_indent - 4 * (Z.of_nat i + 1))
                      +:+ "}")
            (seq 0 levels),
     current_indent - 4 * Z.of_nat levels)
  /\ (0 <= current_indent -> -4 < snd (flush (new_lines, current_indent)) <= 0).
Proof.
  intros levels. rewrite flush_result. split; [reflexivity |].
  intros Hpos. subst levels. simpl. div_lia.
Qed.

(** X3. A decrease of the indentation by less than 4 closes no block:
    the line is appended alone, and [current_indent] drops to the count of
    the line all the same, so the remainder of the division is lost. *)
Theorem small_decrease_closes_nothing new_lines current_indent line :
  leading_spaces line < current_indent ->
  current_indent - leading_spaces line < 4 ->
  scan_line (new_lines, current_indent) line
  = (new_lines ++ [line], leading_spaces line).
Proof.
  intros Hlt Hsmall. rewrite scan_line_spec.
  apply Z.ltb_lt in Hlt as Hltb. rewrite Hltb.
  assert (E : Z.to_nat ((current_indent - leading_spaces line) / 4) = 0%nat)
    by div_lia.
  rewrite E. reflexivity.
Qed.

Lemma small_decrease_closes_nothing_witness :
  leading_spaces "  x" < 4 /\ 4 - leading_spaces "  x" < 4
  /\ scan_line (["    a"], 4) "  x" = (["    a"; "  x"], 2).
Proof.
  split; [reflexivity |]. split; [reflexivity |].
  apply (small_decrease_closes_nothing ["    a"] 4 "  x"); reflexivity.
Defined.




Lemma scan_fold_count lines :
  forall new_lines current_indent,
    0 <= current_indent ->
    current_indent mod 4 = 0 ->
    Forall (fun l => leading_spaces l mod 4 = 0) lines ->
    4 * (Z.of_nat
           (length (fst (flush (fold_left scan_line lines
                                  (new_lines, current_indent)))))
         - Z.of_nat (length new_lines) - Z.of_nat (length lines))
    = current_indent + rises current_indent (map leading_spaces lines).
Proof.
  induction lines as [|line lines IH]; intros new_lines cur Hpos Hmod Hall.
  - cbn [fold_left map rises length].
    rewrite flush_result. cbn [fst].
    rewrite length_app, length_map, length_seq. div_lia.
  - inversion Hall as [|? ? Hline Hrest]; subst.
    cbn [fold_left map rises length]. rewrite scan_line_spec.
    pose proof (leading_spaces_nonneg line) as Hlead.
    match goal with
    | |- context [fold_left scan_line lines (?nl, _)] =>
        specialize (IH nl (leading_spaces line) Hlead Hline Hrest)
    end.
    rewrite !length_app, repeat_length in IH. cbn [length] in IH.
    destruct (leading_spaces line <? cur) eqn:Hlt.
    + apply Z.ltb_lt in Hlt. div_lia.
    + apply Z.ltb_ge in Hlt. lia.
Qed.

(** X5. Delimiter balance, in terms of the indentation alone: when the
    leading-space count of every line is a multiple of 4, four times the
    number of lines the block synthesis adds is the sum of the increases of
    the indentation from line to line, the first line counted from 0.  So
    when every increase is one level, one closing delimiter is added per
    increase. *)
Theorem closers_balance_rises lines :
  Forall (fun l => leading_spaces l mod 4 = 0) lines ->
  4 * (Z.of_nat (length (synthesized_lines lines)) - Z.of_nat (length lines))
  = rises 0 (map leading_spaces lines).
Proof.
  intros Hall. unfold synthesized_lines.
  pose proof (scan_fold_count lines [] 0 (Z.le_refl 0) eq_refl Hall) as H.
  cbn [length] in H. lia.
Qed.

Lemma closers_balance_rises_witness :
  Forall (fun l => leading_spaces l mod 4 = 0)
         ["def f"; "    g"; "        a"; "    b"; "c"]
  /\ 4 * (Z.of_nat (length (synthesized_lines
                              ["def f"; "    g"; "        a"; "    b"; "c"]))
          - 5)
     = 8.
Proof.
  split; [repeat constructor |].
  exact (closers_balance_rises ["def f"; "    g"; "        a"; "    b"; "c"]
           ltac:(repeat constructor)).
Defined.

End BlockSynthesis.

(** ** Searching and cutting text *)

Section Cutting.

Lemma append_cons x a b : String x a +:+ b = String x (a +:+ b).
Proof. reflexivity. Qed.

Lemma append_nil_l b : EmptyString +:+ b = b.
Proof. reflexivity. Qed.

Lemma append_nil_r a : a +:+ EmptyString = a.
Proof.
  induction a as [|x a IH]; [reflexivity |].
  now rewrite append_cons, IH.
Qed.

Lemma contains_cons c d t :
  Str.contains c (String d t) = Chars.ischar c d || Str.contains c t.
Proof.
  unfold Str.contains. simpl.
  destruct (Chars.ischar c d); [reflexivity |].
  now destruct (Str.find c t).
Qed.

Lemma contains_append c a b :
  Str.contains c (a +:+ b) = Str.contains c a || Str.contains c b.
Proof.
  induction a as [|x a IH]; [reflexivity |].
  now rewrite append_cons, !contains_cons, IH, orb_assoc.
Qed.

Lemma find_absent c s : Str.contains c s = false -> Str.find c s = None.
Proof. unfold Str.contains. now destruct (Str.find c s). Qed.

(** The first occurrence of a character. *)
Lemma find_first c a t :
  Str.contains c a = false ->
  Str.find c (a +:+ String c t) = Some (Str.len a).
Proof.
  induction a as [|x a IH]; intros Ha.
  - rewrite append_nil_l. simpl.
    unfold Chars.ischar. now rewrite N.eqb_refl.
  - rewrite contains_cons in Ha. apply orb_false_iff in Ha as [Hx Ha].
    rewrite append_cons. simpl. now rewrite Hx, (IH Ha).
Qed.

Lemma rfind_from_absent c t :
  Str.contains c t = false ->
  forall i last, Str.rfind_from c t i last = last.
Proof.
  induction t as [|d t IH]; intros Ht i last; [reflexivity |].
  rewrite contains_cons in Ht. apply orb_false_iff in Ht as [Hd Ht].
  simpl. now rewrite Hd, (IH Ht).
Qed.

(** The last occurrence of a character. *)
Lemma rfind_last c a t :
  Str.contains c t = false ->
  Str.rfind c (a +:+ String c t) = Some (Str.len a).
Proof.
  intros Ht. unfold Str.rfind.
  enough (H : forall i last,
             Str.rfind_from c (a +:+ String c t) i last = Some (i + Str.len a))
    by apply H.
  induction a as [|x a IH]; intros i last.
  - rewrite append_nil_l. simpl.
    unfold Chars.ischar at 1. rewrite N.eqb_refl.
    rewrite (rfind_from_absent _ _ Ht). f_equal. simpl. lia.
  - rewrite append_cons. simpl. rewrite IH. f_equal. lia.
Qed.

Lemma rfind_absent c s : Str.contains c s = false -> Str.rfind c s = None.
Proof. intros H. unfold Str.rfind. now apply rfind_from_absent. Qed.

Lemma take_append a b : Str.take (Str.len a) (a +:+ b) = a.
Proof.
  induction a as [|x a IH]; [now destruct b |].
  rewrite append_cons. simpl. now rewrite IH.
Qed.

Lemma drop_append a b : Str.drop (Str.len a) (a +:+ b) = b.
Proof.
  induction a as [|x a IH]; [now destruct b |].
  rewrite append_cons. simpl. exact IH.
Qed.

End Cutting.

(** ** Comments, header guards, declarations *)

Section Declarations.

Lemma drop_append_cons a c t : Str.drop (S (Str.len a)) (a +:+ String c t) = t.
Proof.
  induction a as [|x a IH]; [reflexivity |].
  rewrite append_cons. exact IH.
Qed.

(** X6. In a line, the first [#] and nothing else is rewritten: the text
    before it is kept as it is, the [#] becomes the line-comment marker and
    a space, and the text after it follows unchanged, further [#] included;
    a line without [#] is returned as it is. *)
Theorem hash_comment_first code_part comment :
  Str.contains "#" code_part = false ->
  hash_comment (code_part +:+ "#" +:+ comment)
  = code_part +:+ "// " +:+ comment
  /\ hash_comment code_part = code_part.
Proof.
  intros Hcode. unfold hash_comment. split.
  - change ("#" +:+ comment) with (String "#" comment).
    rewrite (find_first _ _ _ Hcode), take_append, drop_append_cons.
    reflexivity.
  - now rewrite (find_absent _ _ Hcode).
Qed.

Lemma hash_comment_first_witness :
  Str.contains "#" "x = 1  " = false
  /\ hash_comment ("x = 1  " +:+ "#" +:+ " set #x")
     = "x = 1  " +:+ "// " +:+ " set #x".
Proof.
  split; [reflexivity |].
  exact (proj1 (hash_comment_first "x = 1  " " set #x" eq_refl)).
Defined.

Lemma all_dots_false base :
  Str.nonempty base = true ->
  Str.contains "." base = false ->
  Str.all (Chars.ischar ".") base = false.
Proof.
  destruct base as [|x base]; [discriminate |]. intros _ H.
  rewrite contains_cons in H. apply orb_false_iff in H as [Hx _].
  simpl. now rewrite Hx.
Qed.

Lemma basename_of_path dir name :
  Str.contains "/" name = false ->
  basename (dir +:+ "/" +:+ name) = name /\ basename name = name.
Proof.
  intros Hname. unfold basename. split.
  - change ("/" +:+ name) with (String "/" name).
    now rewrite (rfind_last _ _ _ Hname), drop_append_cons.
  - now rewrite (rfind_absent _ _ Hname).
Qed.

Lemma splitext_root_of_name base ext :
  Str.nonempty base = true ->
  Str.contains "." base = false ->
  Str.contains "." ext = false ->
  splitext_root (base +:+ "." +:+ ext) = base.
Proof.
  intros Hne Hbase Hext. unfold splitext_root.
  change ("." +:+ ext) with (String "." ext).
  rewrite (rfind_last _ _ _ Hext), take_append.
  now rewrite (all_dots_false _ Hne Hbase).
Qed.

(** X7. The include guard of a header [dir/base.hpp] (or [base.hpp]),
    where [base] is not empty and holds neither a slash nor a dot: the
    guard is named [RESERVOIRCPP_], the upper case of [base], [_HPP]; the
    directory and the suffix leave no trace in it, and the code stands
    between the opening and the closing of the guard, two line feeds from
    each.  ([base] is taken in ASCII, where [Str.upper] is [str.upper].) *)
Theorem header_guard_of_path dir base code :
  Str.all (Chars.between 0 127) base = true ->
  Str.nonempty base = true ->
  Str.contains "/" base = false ->
  Str.contains "." base = false ->
  let guard := Str.upper base +:+ "_HPP" in
  let wrapped :=
    "#ifndef RESERVOIRCPP_" +:+ guard +:+ Str.LF +:+
    "#define RESERVOIRCPP_" +:+ guard +:+ Str.LF +:+ Str.LF +:+
    code +:+ Str.LF +:+ Str.LF +:+
    "#endif // RESERVOIRCPP_" +:+ guard +:+ Str.LF in
  add_header_guards code (dir +:+ "/" +:+ base +:+ ".hpp") = wrapped
  /\ add_header_guards code (base +:+ ".hpp") = wrapped.
Proof.
  intros _ Hne Hslash Hdot guard wrapped.
  assert (Hname : Str.contains "/" (base +:+ ".hpp") = false)
    by (rewrite contains_append, Hslash; reflexivity).
  destruct (basename_of_path dir _ Hname) as [Hdir Hplain].
  unfold add_header_guards.
  rewrite Hdir, Hplain.
  change (base +:+ ".hpp") with (base +:+ "." +:+ "hpp").
  rewrite (splitext_root_of_name base "hpp" Hne Hdot eq_refl).
  split; reflexivity.
Qed.

Lemma header_guard_of_path_witness :
  Str.all (Chars.between 0 127) "node" = true
  /\ Str.nonempty "node" = true
  /\ Str.contains "/" "node" = false
  /\ Str.contains "." "node" = false
  /\ add_header_guards "int x;" ("include/reservoircpp" +:+ "/" +:+ "node" +:+ ".hpp")
     = text [ "#ifndef RESERVOIRCPP_NODE_HPP";
              "#define RESERVOIRCPP_NODE_HPP"; "";
              "int x;"; "";
              "#endif // RESERVOIRCPP_NODE_HPP"; "" ].
Proof.
  split; [reflexivity |].
  split; [reflexivity |]. split; [reflexivity |]. split; [reflexivity |].
  exact (proj1 (header_guard_of_path "include/reservoircpp" "node" "int x;"
                  eq_refl eq_refl eq_refl eq_refl)).
Defined.

Lemma param_step_plain name param_list param :
  plain_param param ->
  param_step (name, param_list) param
  = (name, param_list ++ ["auto " +:+ Str.strip param]).
Proof. intros [Heq Hcolon]. unfold param_step. now rewrite Heq, Hcolon. Qed.

Lemma fold_param_step_plain params :
  forall name param_list,
    Forall plain_param params ->
    fold_left param_step params (name, param_list)
    = (name,
       param_list ++ map (fun param => "auto " +:+ Str.strip param) params).
Proof.
  induction params as [|param params IH]; intros name param_list Hall.
  - simpl. now rewrite app_nil_r.
  - inversion Hall as [|? ? Hparam Hrest]; subst.
    cbn [fold_left map]. rewrite (param_step_plain _ _ _ Hparam), IH by exact Hrest.
    now rewrite <- app_assoc.
Qed.

(** X8. A header whose parameters have neither a default value nor an
    annotation keeps the name of the function: every parameter becomes
    [auto] and its trimmed text, and the header is the return type, the
    name, the parameters and the opening delimiter. *)
Theorem plain_params_keep_name m :
  Str.nonempty (Re.ref 2 m) = true ->
  Forall plain_param (Str.split "," (Re.ref 2 m)) ->
  transform_function m =
    match Re.group 3 m with
    | Some t => if Str.nonempty t then cpp_type_of t else "auto"
    | None => "auto"
    end
    +:+ " " +:+ Re.ref 1 m +:+ "("
    +:+ Str.join ", "
          (map (fun param => "auto " +:+ Str.strip param)
               (Str.split "," (Re.ref 2 m)))
    +:+ ") {".
Proof.
  intros Hne Hall. unfold transform_function.
  now rewrite Hne, (fold_param_step_plain _ _ _ Hall).
Qed.

Lemma plain_params_keep_name_witness :
  let m := Re.Matched 21 [(3, "int"); (2, "a, b"); (1, "add")] in
  Re.match_at function_re None "def add(a, b) -> int:" = Some m
  /\ Str.nonempty (Re.ref 2 m) = true
  /\ Forall plain_param (Str.split "," (Re.ref 2 m))
  /\ transform_function m = "int add(auto a, auto b) {".
Proof.
  intros m. split; [vm_compute; reflexivity |]. split; [reflexivity |].
  split; [repeat constructor |].
  exact (plain_params_keep_name m eq_refl ltac:(repeat constructor)).
Defined.

(** X9. A header whose last parameter has an annotation and no default
    value is named after that parameter: the loop over the parameters ends
    with [name] holding the text before the colon, trimmed, whatever the
    function was called and whatever the parameters before it were. *)
Theorem annotated_last_param_names_header params param st :
  Str.contains "=" (Str.strip param) = false ->
  Str.contains ":" (Str.strip param) = true ->
  fst (fold_left param_step (params ++ [param]) st)
  = Str.strip (fst (Str.split_once ":" (Str.strip param))).
Proof.
  intros Heq Hcolon. rewrite fold_left_app. cbn [fold_left].
  destruct (fold_left param_step params st) as [name param_list].
  unfold param_step. rewrite Heq, Hcolon.
  destruct (Str.split_once ":" (Str.strip param)) as [n h]. reflexivity.
Qed.

Lemma annotated_last_param_names_header_witness :
  Str.contains "=" (Str.strip " b: int") = false
  /\ Str.contains ":" (Str.strip " b: int") = true
  /\ fst (fold_left param_step (["a: int"] ++ [" b: int"]) ("add", [])) = "b".
Proof.
  split; [reflexivity |]. split; [reflexivity |].
  exact (annotated_last_param_names_header ["a: int"] " b: int" ("add", [])
           eq_refl eq_refl).
Defined.

Lemma omap_blank_bases bases :
  Forall (fun base => Str.strip base = EmptyString) bases ->
  omap (fun base =>
          let base := Str.strip base in
          if Str.nonempty base then Some ("public " +:+ base) else None)
       bases = [].
Proof.
  induction 1 as [|base bases Hbase _ IH]; [reflexivity |].
  cbn [omap list_omap]. cbv zeta. rewrite Hbase. simpl. exact IH.
Qed.

(** X10. A class header whose parentheses hold no base (nothing, blanks,
    or only commas and blanks) is rewritten without an inheritance clause:
    [class], the name and the opening delimiter. *)
Theorem class_without_bases m :
  Forall (fun base => Str.strip base = EmptyString)
         (Str.split "," (Re.ref 2 m)) ->
  transform_class m = "class " +:+ Re.ref 1 m +:+ " {".
Proof.
  intros Hall. unfold transform_class. cbv zeta.
  pose proof (omap_blank_bases _ Hall) as E. cbv zeta in E. rewrite E.
  now destruct (Str.nonempty (Re.ref 2 m)).
Qed.

Lemma class_without_bases_witness :
  let m := Re.Matched 16 [(2, " , "); (1, "Node")] in
  Re.match_at class_re None "class Node( , ):" = Some m
  /\ Forall (fun base => Str.strip base = EmptyString)
            (Str.split "," (Re.ref 2 m))
  /\ transform_class m = "class Node {".
Proof.
  intros m. split; [vm_compute; reflexivity |].
  split; [repeat constructor |].
  exact (class_without_bases m ltac:(repeat constructor)).
Defined.

End Declarations.

(** ** Patterns that need a literal *)

Section Literals.

Import Re.

Lemma startswith_append a b p :
  Str.startswith a p = true -> Str.startswith (a +:+ b) p = true.
Proof.
  revert a. induction p as [|x p IH]; intros a H; [apply startswith_empty |].
  destruct a as [|y a]; [discriminate |].
  rewrite append_cons. simpl in *.
  apply andb_true_iff in H as [Hxy H]. now rewrite Hxy, (IH _ H).
Qed.

Lemma occurs_cons p c t : occurs p t = true -> occurs p (String c t) = true.
Proof. intros H. simpl. rewrite H. apply orb_true_r. Qed.

Lemma occurs_append_l p a b : occurs p a = true -> occurs p (a +:+ b) = true.
Proof.
  induction a as [|x a IH]; intros H.
  - simpl in H. rewrite orb_false_r in H.
    destruct p; [|discriminate]. rewrite append_nil_l.
    destruct b; reflexivity.
  - rewrite append_cons. cbn [occurs] in *.
    apply orb_true_iff in H as [H | H].
    + rewrite <- append_cons, (startswith_append _ _ _ H). reflexivity.
    + rewrite (IH H). apply orb_true_r.
Qed.

Lemma occurs_append_r p a b : occurs p b = true -> occurs p (a +:+ b) = true.
Proof.
  intros H. induction a as [|x a IH]; [exact H |].
  rewrite append_cons. now apply occurs_cons.
Qed.

Lemma occurs_drop p n : forall s, occurs p (Str.drop n s) = true -> occurs p s = true.
Proof.
  induction n as [|n IH]; intros s H; [exact H |].
  destruct s as [|c s]; [exact H |]. simpl in H. apply occurs_cons. now apply IH.
Qed.

Lemma occurs_tail p c t : occurs p (String c t) = false -> occurs p t = false.
Proof. simpl. intros H. now apply orb_false_iff in H as [_ H]. Qed.

Lemma drop_drop n : forall m s, Str.drop m (Str.drop n s) = Str.drop (n + m) s.
Proof.
  induction n as [|n IH]; intros m s; [reflexivity |].
  destruct s as [|c s]; simpl; [now destruct m |]. apply IH.
Qed.

Lemma rest_forward n : forall c, rest (forward n c) = Str.drop n (rest c).
Proof.
  induction n as [|n IH]; intros c; simpl; [reflexivity |].
  destruct (rest c) as [|a t] eqn:E; [now rewrite E |]. now rewrite IH.
Qed.

(** A literal that is read stands at the cursor. *)
Lemma eat_spec lit : forall c c', eat lit c = Some c' -> rest c = lit +:+ rest c'.
Proof.
  induction lit as [|a lit IH]; intros c c' H; simpl in H.
  - now inversion H.
  - destruct (rest c) as [|b t] eqn:E; [discriminate |].
    destruct (Chars.ischar a b) eqn:Eab; [|discriminate].
    apply ischar_eq in Eab. subst b.
    rewrite append_cons. f_equal. exact (IH _ _ H).
Qed.

(** Matching moves the cursor forward only. *)
Lemma run_rest r :
  forall c k cf,
    run r c k = Some cf ->
    exists c' n, k c' = Some cf /\ rest c' = Str.drop n (rest c).
Proof.
  induction r as [lit | g least cls | i r IH | r IH | r1 IH1 r2 IH2 | |];
    intros c k cf H; simpl in H.
  - destruct (eat lit c) as [c'|] eqn:E; [|discriminate].
    exists c', (Str.len lit). split; [exact H |].
    now rewrite (eat_spec _ _ _ E), drop_append.
  - assert (Hq : exists m, k (forward m c) = Some cf).
    { destruct g.
      - destruct (greedy_sound _ _ _ _ _ _ eq_refl H) as (m & _ & Hk). eauto.
      - destruct (lazy_sound _ _ _ _ _ _ eq_refl H) as (m & _ & Hk). eauto. }
    destruct Hq as (m & Hk). exists (forward m c), m.
    split; [exact Hk | apply rest_forward].
  - destruct (IH _ _ _ H) as (c' & n & Hk & Hrest).
    exists (set_group i c c'), n. split; [exact Hk | exact Hrest].
  - destruct (run r c k) as [x|] eqn:E; simpl in H.
    + inversion H; subst x. exact (IH _ _ _ E).
    + exists c, 0. split; [exact H | reflexivity].
  - destruct (IH1 _ _ _ H) as (c1 & n1 & H2 & Hrest1).
    destruct (IH2 _ _ _ H2) as (c2 & n2 & Hk & Hrest2).
    exists c2, (n1 + n2). split; [exact Hk |].
    now rewrite Hrest2, Hrest1, drop_drop.
  - destruct (at_bol c); [|discriminate]. exists c, 0. now split.
  - destruct (at_eol c); [|discriminate]. exists c, 0. now split.
Qed.

Lemma must_read_sound p r :
  must_read p r = true ->
  forall c k cf, run r c k = Some cf -> occurs p (rest c) = true.
Proof.
  induction r as [lit | g least cls | i r IH | r IH | r1 IH1 r2 IH2 | |];
    intros Hmust c k cf H; simpl in Hmust; try discriminate.
  - simpl in H. destruct (eat lit c) as [c'|] eqn:E; [|discriminate].
    rewrite (eat_spec _ _ _ E). now apply occurs_append_l.
  - simpl in H. exact (IH Hmust _ _ _ H).
  - simpl in H. apply orb_true_iff in Hmust as [Hmust | Hmust].
    + exact (IH1 Hmust _ _ _ H).
    + destruct (run_rest _ _ _ _ H) as (c1 & n & H2 & Hrest).
      apply (occurs_drop p n). rewrite <- Hrest.
      exact (IH2 Hmust _ _ _ H2).
Qed.

(** A pattern that needs a literal finds nothing in a text that lacks
    it. *)
Lemma finditer_absent p r s :
  must_read p r = true ->
  occurs p s = false ->
  forall before skip, finditer_from r before s skip = [].
Proof.
  intros Hmust. induction s as [|a t IH]; intros Hs before skip.
  - destruct skip; simpl; [|reflexivity].
    destruct (match_at r before EmptyString) as [m|] eqn:E; [|reflexivity].
    unfold match_at in E.
    destruct (run r _ Some) as [cf|] eqn:Er; [|discriminate].
    apply (must_read_sound _ _ Hmust) in Er. cbn [rest] in Er.
    rewrite Hs in Er. discriminate Er.
  - pose proof (occurs_tail _ _ _ Hs) as Ht.
    destruct skip; simpl; [|now apply IH].
    destruct (match_at r before (String a t)) as [m|] eqn:E; [|now apply IH].
    unfold match_at in E.
    destruct (run r _ Some) as [cf|] eqn:Er; [|discriminate].
    apply (must_read_sound _ _ Hmust) in Er. cbn [rest] in Er.
    rewrite Hs in Er. discriminate Er.
Qed.

Lemma sub_absent p r repl s :
  must_read p r = true -> occurs p s = false -> sub r repl s = s.
Proof.
  intros Hmust Hs. apply sub_no_match. now apply finditer_absent with (p := p).
Qed.

End Literals.

(** ** What the passes leave alone *)

Section Untouched.

Local Open Scope Z_scope.

(** X11. Without the word [def] there is no function and no method: a
    unit in which [def] does not occur is returned unchanged by
    [transform_functions] and by the insertion of the visibility marker. *)
Theorem no_def_no_function code :
  occurs "def" code = false ->
  transform_functions code = code
  /\ Re.sub method_re method_repl code = code.
Proof.
  intros H. split; apply (sub_absent "def"); (reflexivity || exact H).
Qed.

Lemma no_def_no_function_witness :
  occurs "def" (text ["x = 1"; "print(x)"; ""]) = false
  /\ transform_functions (text ["x = 1"; "print(x)"; ""])
     = text ["x = 1"; "print(x)"; ""].
Proof.
  split; [reflexivity |].
  exact (proj1 (no_def_no_function (text ["x = 1"; "print(x)"; ""]) eq_refl)).
Defined.

(** X12. Closing delimiters need a [def]: when [def] does not occur in
    the text with its headers rewritten, [transform_control_structures]
    returns that text and adds no line, however deeply the unit is
    indented, so every block a conditional or a loop opened stays open. *)
Theorem no_def_no_closing_delimiter code :
  occurs "def" (rewrite_headers code) = false ->
  transform_control_structures code = rewrite_headers code.
Proof.
  intros H. unfold transform_control_structures, indentations.
  assert (E : Re.finditer indentation_pattern (rewrite_headers code) = [])
    by (apply (finditer_absent "def"); (reflexivity || exact H)).
  now rewrite E.
Qed.

Lemma no_def_no_closing_delimiter_witness :
  occurs "def" (rewrite_headers (text ["while x:"; "    if y:"; "        z"; "w"]))
  = false
  /\ transform_control_structures (text ["while x:"; "    if y:"; "        z"; "w"])
     = text ["while (x) {"; "    if (y) {"; "        z"; "w"].
Proof.
  split; [vm_compute; reflexivity |].
  rewrite (no_def_no_closing_delimiter
             (text ["while x:"; "    if y:"; "        z"; "w"]))
    by (vm_compute; reflexivity).
  vm_compute. reflexivity.
Defined.

Lemma rewrite_headers_no_colon code :
  occurs ":" code = false -> rewrite_headers code = code.
Proof.
  intros H. unfold rewrite_headers. cbv zeta.
  rewrite (sub_absent ":" if_re if_repl code eq_refl H).
  rewrite (sub_absent ":" elif_re elif_repl code eq_refl H).
  rewrite (sub_absent ":" else_re else_repl code eq_refl H).
  rewrite (sub_absent ":" for_re for_repl code eq_refl H).
  exact (sub_absent ":" while_re while_repl code eq_refl H).
Qed.

(** X13. Every header pattern ends in a colon: a unit in which no colon
    occurs has no function header, no class header and no control-flow
    header rewritten. *)
Theorem no_colon_no_header code :
  occurs ":" code = false ->
  transform_functions code = code
  /\ transform_classes code = Re.sub method_re method_repl code
  /\ rewrite_headers code = code.
Proof.
  intros H. split; [|split].
  - apply (sub_absent ":"); (reflexivity || exact H).
  - unfold transform_classes.
    now rewrite (sub_absent ":" class_re transform_class code eq_refl H).
  - now apply rewrite_headers_no_colon.
Qed.

Lemma no_colon_no_header_witness :
  occurs ":" (text ["if x > 0"; "    y = 1"]) = false
  /\ rewrite_headers (text ["if x > 0"; "    y = 1"])
     = text ["if x > 0"; "    y = 1"].
Proof.
  split; [reflexivity |].
  exact (proj2 (proj2 (no_colon_no_header (text ["if x > 0"; "    y = 1"])
                         eq_refl))).
Defined.

(** X14. A unit in which no [=] occurs is returned unchanged by
    [transform_variables]: no type is inserted anywhere. *)
Theorem no_equals_no_binding code :
  occurs "=" code = false -> transform_variables code = code.
Proof. intros H. apply (sub_absent "="); (reflexivity || exact H). Qed.

Lemma no_equals_no_binding_witness :
  occurs "=" (text ["print(x)"; "return y"]) = false
  /\ transform_variables (text ["print(x)"; "return y"])
     = text ["print(x)"; "return y"].
Proof.
  split; [reflexivity |].
  exact (no_equals_no_binding (text ["print(x)"; "return y"]) eq_refl).
Defined.

End Untouched.

(** ** Lines *)

Section Lines.

Local Open Scope Z_scope.

Lemma split_nonnil c s : Str.split c s <> [].
Proof.
  destruct s as [|d t]; simpl; [discriminate |].
  destruct (Chars.ischar c d); [discriminate |].
  destruct (Str.split c t); discriminate.
Qed.

Lemma join_cons sep x y l :
  Str.join sep (x :: y :: l) = x +:+ sep +:+ Str.join sep (y :: l).
Proof. reflexivity. Qed.

(** Splitting at a character and joining with it gives the text back. *)
Lemma join_split c s : Str.join (String c EmptyString) (Str.split c s) = s.
Proof.
  induction s as [|d t IH]; [reflexivity |]. simpl.
  destruct (Chars.ischar c d) eqn:E.
  - apply ischar_eq in E. subst d.
    destruct (Str.split c t) as [|x l] eqn:Es; [now apply split_nonnil in Es |].
    rewrite join_cons, IH. reflexivity.
  - destruct (Str.split c t) as [|x l] eqn:Es; [now apply split_nonnil in Es |].
    destruct l as [|y l].
    + simpl in *. now rewrite IH.
    + rewrite join_cons in *. rewrite append_cons. now rewrite IH.
Qed.

Lemma split_contains ch c s :
  Str.contains ch s = false ->
  Forall (fun line => Str.contains ch line = false) (Str.split c s).
Proof.
  induction s as [|d t IH]; intros H; [repeat constructor |].
  rewrite contains_cons in H. apply orb_false_iff in H as [Hd Ht].
  specialize (IH Ht). simpl.
  destruct (Chars.ischar c d); [now constructor |].
  destruct (Str.split c t) as [|x l]; [repeat constructor; now rewrite contains_cons, Hd |].
  inversion IH; subst. constructor; [|assumption].
  rewrite contains_cons, Hd. assumption.
Qed.

Lemma map_hash_comment_id lines :
  Forall (fun line => Str.contains "#" line = false) lines ->
  map hash_comment lines = lines.
Proof.
  induction 1 as [|line lines Hline _ IH]; [reflexivity |].
  cbn [map]. rewrite IH. f_equal.
  unfold hash_comment. now rewrite (find_absent _ _ Hline).
Qed.

Lemma preprocess_comments_plain code :
  Str.contains "#" code = false ->
  occurs (Str.DQ +:+ Str.DQ +:+ Str.DQ) code = false ->
  occurs "'''" code = false ->
  preprocess_comments code = code.
Proof.
  intros Hhash Hdq Hsq. unfold preprocess_comments. cbv zeta.
  rewrite (sub_absent (Str.DQ +:+ Str.DQ +:+ Str.DQ)
             (docstring_re (Str.DQ +:+ Str.DQ +:+ Str.DQ))
             docstring_repl code eq_refl Hdq).
  rewrite (sub_absent "'''" (docstring_re "'''") docstring_repl code
             eq_refl Hsq).
  rewrite (map_hash_comment_id _ (split_contains _ _ _ Hhash)).
  apply join_split.
Qed.

(** X15. A unit with no [#] and no triple quote, single or double, has
    no comment, and [preprocess_comments] returns it unchanged. *)
Theorem no_comment_unchanged code :
  Str.contains "#" code = false ->
  occurs (Str.DQ +:+ Str.DQ +:+ Str.DQ) code = false ->
  occurs "'''" code = false ->
  preprocess_comments code = code.
Proof. apply preprocess_comments_plain. Qed.

Lemma no_comment_unchanged_witness :
  let code := text ["s = " +:+ quoted "a'b"; "t = s"; ""] in
  Str.contains "#" code = false
  /\ occurs (Str.DQ +:+ Str.DQ +:+ Str.DQ) code = false
  /\ occurs "'''" code = false
  /\ preprocess_comments code = code.
Proof.
  intros code. split; [reflexivity |]. split; [reflexivity |].
  split; [reflexivity |].
  exact (no_comment_unchanged code eq_refl eq_refl eq_refl).
Defined.

Lemma scan_flat lines :
  forall new_lines,
    Forall (fun line => leading_spaces line = 0) lines ->
    fold_left scan_line lines (new_lines, 0) = (new_lines ++ lines, 0).
Proof.
  induction lines as [|line lines IH]; intros new_lines Hall.
  - simpl. now rewrite app_nil_r.
  - inversion Hall as [|? ? Hline Hrest]; subst.
    cbn [fold_left]. rewrite scan_line_spec, Hline. simpl.
    rewrite IH by exact Hrest. now rewrite <- app_assoc.
Qed.

Lemma synthesize_flat code :
  Forall (fun line => leading_spaces line = 0) (lines code) ->
  synthesize_blocks code = code.
Proof.
  intros Hall. unfold synthesize_blocks. cbv zeta.
  fold (lines code). rewrite (scan_flat _ [] Hall). simpl.
  apply join_split.
Qed.

(** X16. A unit none of whose lines starts with a space, once its
    headers are rewritten, gets no closing delimiter, with or without a
    [def]: [transform_control_structures] returns the text with its headers
    rewritten. *)
Theorem flat_unit_no_closing_delimiter code :
  Forall (fun line => leading_spaces line = 0) (lines (rewrite_headers code)) ->
  transform_control_structures code = rewrite_headers code.
Proof.
  intros Hall. unfold transform_control_structures.
  destruct (indentations (rewrite_headers code)); [reflexivity |].
  now apply synthesize_flat.
Qed.

Lemma flat_unit_no_closing_delimiter_witness :
  let code := text ["def f(x):"; "return x"; "if x:"; "y"] in
  Forall (fun line => leading_spaces line = 0) (lines (rewrite_headers code))
  /\ transform_control_structures code
     = text ["def f(x):"; "return x"; "if (x) {"; "y"].
Proof.
  intros code.
  assert (H : Forall (fun line => leading_spaces line = 0)
                (lines (rewrite_headers code)))
    by (vm_compute; repeat constructor).
  split; [exact H |].
  rewrite (flat_unit_no_closing_delimiter code H). vm_compute. reflexivity.
Defined.

End Lines.

(** ** A unit of plain statements *)

Section PlainUnit.

Lemma occurs_skip_prefix p0 p' prefix s :
  Str.contains p0 prefix = false ->
  occurs (String p0 p') (prefix +:+ s) = occurs (String p0 p') s.
Proof.
  induction prefix as [|c prefix IH]; intros H; [reflexivity |].
  rewrite contains_cons in H. apply orb_false_iff in H as [Hc H].
  rewrite append_cons. cbn [occurs Str.startswith].
  now rewrite Hc, (IH H).
Qed.

Lemma transform_imports_no_import code :
  Re.finditer import_re code = [] ->
  transform_imports code = (Str.LF +:+ Str.LF +:+ namespace_usage) +:+ code.
Proof.
  intros Hnone.
  unfold transform_imports, emitted_includes, collected_imports, remove_imports.
  cbv zeta. rewrite Hnone, (sub_no_match _ _ _ Hnone). simpl concat.
  assert (E : elements (list_to_set [] : gset string) = [])
    by apply elements_empty.
  rewrite E. reflexivity.
Qed.

(** X17. The passes together, on a unit of plain statements: when the
    unit is not blank and holds no [#], no triple quote, no import
    statement, no [def], no colon and no [=], and the output is not a
    header, [transform] returns the unit as it is behind two line feeds and
    the two namespace directives. *)
Theorem plain_unit_passthrough code filename :
  Str.nonempty (Str.strip code) = true ->
  Str.contains "#" code = false ->
  occurs (Str.DQ +:+ Str.DQ +:+ Str.DQ) code = false ->
  occurs "'''" code = false ->
  Re.finditer import_re code = [] ->
  occurs "def" code = false ->
  occurs ":" code = false ->
  occurs "=" code = false ->
  Str.endswith filename ".hpp" = false ->
  transform code filename
  = (Str.LF +:+ Str.LF +:+ namespace_usage) +:+ code.
Proof.
  intros Hcode Hhash Hdq Hsq Himport Hdef Hcolon Heq Hname.
  rewrite (transform_source_unit _ _ Hcode Hname). unfold passes.
  rewrite (preprocess_comments_plain _ Hhash Hdq Hsq).
  rewrite (transform_imports_no_import _ Himport).
  set (unit := (Str.LF +:+ Str.LF +:+ namespace_usage) +:+ code).
  assert (Udef : occurs "def" unit = false)
    by (unfold unit; rewrite occurs_skip_prefix by reflexivity; exact Hdef).
  assert (Ucolon : occurs ":" unit = false)
    by (unfold unit; rewrite occurs_skip_prefix by reflexivity; exact Hcolon).
  assert (Ueq : occurs "=" unit = false)
    by (unfold unit; rewrite occurs_skip_prefix by reflexivity; exact Heq).
  unfold transform_functions.
  rewrite (sub_absent "def" function_re transform_function unit eq_refl Udef).
  unfold transform_classes.
  rewrite (sub_absent ":" class_re transform_class unit eq_refl Ucolon).
  rewrite (sub_absent "def" method_re method_repl unit eq_refl Udef).
  unfold transform_variables.
  rewrite (sub_absent "=" assignment_re transform_assignment unit eq_refl Ueq).
  unfold transform_control_structures, indentations.
  rewrite (rewrite_headers_no_colon unit Ucolon).
  unfold Re.finditer.
  now rewrite (finditer_absent "def" indentation_pattern unit eq_refl Udef).
Qed.

Lemma plain_unit_passthrough_witness :
  let code := text ["print(x)"; "    run(y, 2)"; "done()"; ""] in
  Str.nonempty (Str.strip code) = true
  /\ Str.contains "#" code = false
  /\ occurs (Str.DQ +:+ Str.DQ +:+ Str.DQ) code = false
  /\ occurs "'''" code = false
  /\ Re.finditer import_re code = []
  /\ occurs "def" code = false
  /\ occurs ":" code = false
  /\ occurs "=" code = false
  /\ Str.endswith "out.cpp" ".hpp" = false
  /\ transform code "out.cpp"
     = text [ ""; ""; using_reservoircpp; using_eigen; "";
              "print(x)"; "    run(y, 2)"; "done()"; "" ].
Proof.
  intros code.
  repeat (split; [vm_compute; reflexivity |]).
  exact (plain_unit_passthrough code "out.cpp"
           eq_refl eq_refl eq_refl eq_refl
           ltac:(vm_compute; reflexivity)
           eq_refl eq_refl eq_refl eq_refl).
Defined.

End PlainUnit.

(** ** Following the matcher through a text *)

Section Following.

Import Re.

Lemma forward_cons n a t c :
  rest c = String a t -> forward (S n) c = forward n (advance a t c).
Proof. intros H. simpl. now rewrite H. Qed.

(** The cursor past a prefix of the text. *)
Lemma forward_append a :
  forall t c,
    rest c = a +:+ t ->
    rest (forward (Str.len a) c) = t
    /\ pos (forward (Str.len a) c) = pos c + Str.len a
    /\ groups (forward (Str.len a) c) = groups c.
Proof.
  induction a as [|x a IH]; intros t c H.
  - simpl. repeat split; [exact H | lia].
  - rewrite append_cons in H. cbn [Str.len]. rewrite (forward_cons _ _ _ _ H).
    destruct (IH t (advance x (a +:+ t) c) eq_refl) as (Hr & Hp & Hg).
    repeat split; [exact Hr | rewrite Hp; simpl; lia | exact Hg].
Qed.

Lemma eat_append lit :
  forall t c, rest c = lit +:+ t -> eat lit c = Some (forward (Str.len lit) c).
Proof.
  induction lit as [|x lit IH]; intros t c H; [reflexivity |].
  rewrite append_cons in H. cbn [Str.len]. rewrite (forward_cons _ _ _ _ H).
  simpl. rewrite H. unfold Chars.ischar at 1. rewrite N.eqb_refl.
  exact (IH t (advance x (lit +:+ t) c) eq_refl).
Qed.

Lemma eat_head_fail ch lit x s c :
  rest c = String x s -> Chars.ischar ch x = false ->
  eat (String ch lit) c = None.
Proof. intros H Hx. simpl. now rewrite H, Hx. Qed.

(** A greedy quantifier on a run of the class that ends where the class
    ends takes the whole run, when the continuation accepts it there. *)
Lemma greedy_exact cls k a :
  forall t least c r,
    rest c = a +:+ t ->
    Str.all cls a = true ->
    Str.all cls (Str.take 1 t) = negb (Str.nonempty t) ->
    least <= Str.len a ->
    k (forward (Str.len a) c) = Some r ->
    greedy cls k (a +:+ t) least c = Some r.
Proof.
  induction a as [|x a IH]; intros t least c r Hrest Hall Hend Hleast Hk.
  - rewrite append_nil_l. simpl in Hleast, Hk.
    assert (least = 0) by lia. subst least.
    destruct t as [|y t]; simpl; [exact Hk |].
    simpl in Hend. rewrite andb_true_r in Hend. now rewrite Hend.
  - rewrite append_cons in *. simpl in Hall.
    apply andb_true_iff in Hall as [Hx Hall].
    cbn [Str.len] in Hk. rewrite (forward_cons _ _ _ _ Hrest) in Hk.
    cbn [greedy]. rewrite Hx.
    rewrite (IH t (Nat.pred least) (advance x (a +:+ t) c) r eq_refl Hall Hend);
      [reflexivity | simpl in Hleast; lia | exact Hk].
Qed.

(** A lazy quantifier passes over a run of the class on which the
    continuation fails. *)
Lemma lazy_skip cls k a :
  forall t c,
    rest c = a +:+ t ->
    Str.all cls a = true ->
    (forall j, j < Str.len a -> k (forward j c) = None) ->
    lazy cls k (a +:+ t) 0 c = lazy cls k t 0 (forward (Str.len a) c).
Proof.
  induction a as [|x a IH]; intros t c Hrest Hall Hfail; [reflexivity |].
  rewrite append_cons in *. simpl in Hall.
  apply andb_true_iff in Hall as [Hx Hall].
  cbn [Str.len]. rewrite (forward_cons _ _ _ _ Hrest).
  cbn [lazy]. rewrite Hx.
  pose proof (Hfail 0 ltac:(simpl; lia)) as H0. simpl in H0. rewrite H0.
  cbn [orelse Nat.pred].
  apply (IH t (advance x (a +:+ t) c) eq_refl Hall).
  intros j Hj. rewrite <- (forward_cons _ _ _ _ Hrest).
  apply Hfail. simpl. lia.
Qed.

Lemma lazy_stop cls k s c :
  is_Some (k c) -> lazy cls k s 0 c = k c.
Proof. intros [r Hr]. destruct s; simpl; now rewrite Hr. Qed.

(** Inside a text without the character [ch], the text goes on with a
    character that is not [ch]. *)
Lemma drop_head_absent ch a t :
  Str.contains ch a = false ->
  forall j, j < Str.len a ->
    exists x s, Str.drop j (a +:+ t) = String x s /\ Chars.ischar ch x = false.
Proof.
  induction a as [|y a IH]; intros Ha j Hj; [simpl in Hj; lia |].
  rewrite contains_cons in Ha. apply orb_false_iff in Ha as [Hy Ha].
  rewrite append_cons. destruct j as [|j].
  - exists y, (a +:+ t). now split.
  - simpl. apply (IH Ha). simpl in Hj. lia.
Qed.

End Following.

(** ** The headers of conditionals *)

Section Headers.

Import Re.

Lemma run_lit s c k :
  run (Lit s) c k = match eat s c with Some c' => k c' | None => None end.
Proof. reflexivity. Qed.

Lemma run_plus_seq cls r c k :
  run (Seq (plus cls) r) c k
  = greedy cls (fun c' => run r c' k) (rest c) 1 c.
Proof. reflexivity. Qed.

Lemma match_at_absent p r before s :
  must_read p r = true -> occurs p s = false -> match_at r before s = None.
Proof.
  intros Hmust Hs. unfold match_at.
  destruct (run r _ Some) as [cf|] eqn:E; [|reflexivity].
  apply (must_read_sound _ _ Hmust) in E. cbn [rest] in E. congruence.
Qed.

Lemma sub_from_skip_all r repl :
  (forall before, match_at r before EmptyString = None) ->
  forall t before, sub_from r repl before t (Str.len t) = EmptyString.
Proof.
  intros Hempty. induction t as [|a t IH]; intros before; simpl.
  - now rewrite Hempty.
  - apply IH.
Qed.

(** A match that takes the whole text is the only one. *)
Lemma sub_whole r repl before s m :
  (forall b, match_at r b EmptyString = None) ->
  match_at r before s = Some m ->
  span m = Str.len s ->
  sub_from r repl before s 0 = repl m.
Proof.
  intros Hempty Hm Hspan. destruct s as [|a t].
  - now rewrite Hempty in Hm.
  - cbn [sub_from]. rewrite Hm, Hspan. cbn [Str.len].
    rewrite (sub_from_skip_all _ _ Hempty). apply append_nil_r.
Qed.

Lemma condition_head cond tail :
  condition cond ->
  Str.all Chars.isspace (Str.take 1 (cond +:+ ":" +:+ tail))
  = negb (Str.nonempty (cond +:+ ":" +:+ tail)).
Proof.
  intros (_ & _ & Hstrip). destruct cond as [|x cond]; [reflexivity |].
  rewrite append_cons. simpl in *.
  destruct (Chars.isspace x); [|reflexivity].
  pose proof (len_lstrip_le Chars.isspace cond) as Hle.
  rewrite Hstrip in Hle. simpl in Hle. lia.
Qed.

(** From the condition on: the lazy group stops at the first colon. *)
Lemma condition_run cond tail c :
  condition cond ->
  rest c = cond +:+ ":" +:+ tail ->
  exists cf,
    run (Seq (Grp 1 (star_lazy Chars.dot)) (Seq (Lit ":") (Lit EmptyString)))
        c Some = Some cf
    /\ pos cf = pos c + Str.len cond + 1
    /\ groups cf = (1, cond) :: groups c.
Proof.
  intros (Hdot & Hcolon & _) Hrest.
  destruct (forward_append cond _ c Hrest) as (Hr3 & Hp3 & Hg3).
  set (c3 := forward (Str.len cond) c) in *.
  set (kk := fun c' => run (Seq (Lit ":") (Lit EmptyString))
                           (set_group 1 c c') Some).
  assert (Hstop : kk c3 = Some (forward 1 (set_group 1 c c3))).
  { unfold kk. rewrite run_seq, run_lit.
    rewrite (eat_append ":" tail (set_group 1 c c3) Hr3). reflexivity. }
  exists (forward 1 (set_group 1 c c3)). split; [|split].
  - change (lazy Chars.dot kk (rest c) 0 c
            = Some (forward 1 (set_group 1 c c3))).
    rewrite Hrest.
    rewrite (lazy_skip _ kk cond _ c Hrest Hdot).
    + fold c3. rewrite lazy_stop; [exact Hstop | rewrite Hstop; eauto].
    + intros j Hj. unfold kk. rewrite run_seq, run_lit.
      destruct (drop_head_absent ":" cond (":" +:+ tail) Hcolon j Hj)
        as (x & s & Hdrop & Hx).
      rewrite (eat_head_fail ":" EmptyString x s); [reflexivity | | exact Hx].
      cbn [set_group rest]. now rewrite rest_forward, Hrest.
  - destruct (forward_append ":" tail (set_group 1 c c3) Hr3) as (_ & Hp & _).
    change (Str.len ":") with 1 in Hp. rewrite Hp. cbn [set_group pos]. lia.
  - destruct (forward_append ":" tail (set_group 1 c c3) Hr3) as (_ & _ & Hg).
    change (Str.len ":") with 1 in Hg. rewrite Hg. cbn [set_group groups].
    unfold c3. now rewrite take_forward, Hrest, take_append, groups_forward.
Qed.

(** A header at the cursor is matched up to its colon, and the group is
    its condition. *)
Lemma keyword_header_match keyword before ws cond tail :
  blanks ws -> condition cond ->
  match_at (keyword_re keyword) before
           (keyword +:+ ws +:+ cond +:+ ":" +:+ tail)
  = Some (Matched (Str.len keyword + Str.len ws + Str.len cond + 1)
                  [(1, cond)]).
Proof.
  intros (Hne & Hws) Hcond. unfold match_at, keyword_re, cat.
  cbn [fold_right]. rewrite run_seq, run_lit.
  set (c0 := Cursor before _ 0 []).
  rewrite (eat_append keyword (ws +:+ cond +:+ ":" +:+ tail) c0 eq_refl).
  destruct (forward_append keyword _ c0 eq_refl) as (Hr1 & Hp1 & Hg1).
  set (c1 := forward (Str.len keyword) c0) in *.
  destruct (forward_append ws _ c1 Hr1) as (Hr2 & Hp2 & Hg2).
  destruct (condition_run cond tail _ Hcond Hr2) as (cf & Hrun & Hp & Hg).
  rewrite run_plus_seq, Hr1.
  rewrite (greedy_exact _ _ ws _ 1 c1 cf Hr1 Hws (condition_head _ _ Hcond)).
  - rewrite Hp, Hg, Hp2, Hg2, Hp1, Hg1. reflexivity.
  - destruct ws; [discriminate | simpl; lia].
  - exact Hrun.
Qed.

Lemma occurs_char ch s : occurs (String ch EmptyString) s = Str.contains ch s.
Proof.
  induction s as [|d t IH]; [reflexivity |].
  cbn [occurs Str.startswith]. now rewrite startswith_empty, andb_true_r, contains_cons, IH.
Qed.

Lemma all_dot_no_lf s :
  Str.all Chars.dot s = true -> Str.contains Chars.LF s = false.
Proof.
  induction s as [|d t IH]; [reflexivity |]. simpl. intros H.
  apply andb_true_iff in H as [Hd Ht]. rewrite contains_cons, (IH Ht).
  unfold Chars.dot in Hd. apply negb_true_iff in Hd.
  unfold Chars.ischar. change (Chars.code Chars.LF) with 10%N. now rewrite Hd.
Qed.

Lemma keyword_head_fail k0 keyword before x t :
  Chars.ischar k0 x = false ->
  match_at (keyword_re (String k0 keyword)) before (String x t) = None.
Proof.
  intros Hx. unfold match_at, keyword_re, cat. cbn [fold_right].
  rewrite run_seq, run_lit.
  now rewrite (eat_head_fail k0 keyword x t
                 (Cursor before (String x t) 0 []) eq_refl Hx).
Qed.

(** Inside a line the pattern for the indentation of a [def] finds
    nothing: it is anchored at the start of a line. *)
Lemma indentation_inline s :
  Str.contains Chars.LF s = false ->
  forall b, Chars.ischar Chars.LF b = false ->
            finditer_from indentation_pattern (Some b) s 0 = [].
Proof.
  induction s as [|a t IH]; intros Hs b Hb.
  - cbn [finditer_from]. unfold match_at, indentation_pattern, cat.
    cbn [fold_right]. rewrite run_seq. cbn [run at_bol before]. now rewrite Hb.
  - rewrite contains_cons in Hs. apply orb_false_iff in Hs as [Ha Ht].
    cbn [finditer_from]. unfold match_at at 1, indentation_pattern, cat.
    cbn [fold_right]. rewrite run_seq. cbn [run at_bol before]. rewrite Hb.
    apply (IH Ht a Ha).
Qed.

(** A single line that starts with neither a space nor a [d] holds no
    [def] at its start. *)
Lemma indentations_of_line x t :
  Chars.ischar " " x = false -> Chars.ischar "d" x = false ->
  Str.contains Chars.LF (String x t) = false ->
  indentations (String x t) = [].
Proof.
  intros Hsp Hd Hlf. unfold indentations, finditer.
  rewrite contains_cons in Hlf. apply orb_false_iff in Hlf as [Hx Ht].
  cbn [finditer_from].
  assert (E : match_at indentation_pattern None (String x t) = None).
  { unfold match_at, indentation_pattern, cat, star. cbn [fold_right].
    rewrite !run_seq. cbn [run at_bol before rest greedy]. rewrite Hsp.
    cbn [orelse set_group rest eat]. now rewrite Hd. }
  rewrite E, (indentation_inline t Ht x Hx). reflexivity.
Qed.

Lemma len_header keyword ws cond :
  Str.len (keyword +:+ ws +:+ cond +:+ ":")
  = Str.len keyword + Str.len ws + Str.len cond + 1.
Proof. rewrite !len_append. simpl. lia. Qed.

(** The substitution for a keyword on a header that starts the text. *)
Lemma sub_keyword_header keyword repl before ws cond :
  occurs keyword EmptyString = false ->
  blanks ws -> condition cond ->
  sub_from (keyword_re keyword) repl before
           (keyword +:+ ws +:+ cond +:+ ":") 0
  = repl (Matched (Str.len keyword + Str.len ws + Str.len cond + 1)
                  [(1, cond)]).
Proof.
  intros Hkw Hws Hcond. apply sub_whole.
  - intros b. apply (match_at_absent keyword); [|exact Hkw].
    unfold keyword_re, cat. cbn [fold_right must_read].
    destruct keyword as [|k0 keyword]; [discriminate |].
    cbn [occurs]. unfold Str.startswith at 1. fold Str.startswith.
    unfold Chars.ischar at 1. rewrite N.eqb_refl.
    enough (Str.startswith keyword keyword = true) as -> by reflexivity.
    clear. induction keyword as [|a s IH]; [reflexivity |]. simpl.
    unfold Chars.ischar at 1. now rewrite N.eqb_refl.
  - exact (keyword_header_match keyword before ws cond EmptyString Hws Hcond).
  - cbn [span]. now rewrite len_header.
Qed.

Lemma headers_after_if text :
  occurs ":" text = false ->
  sub while_re while_repl
    (sub for_re for_repl
       (sub else_re else_repl (sub elif_re elif_repl text))) = text.
Proof.
  intros H.
  rewrite (sub_absent ":" elif_re elif_repl text eq_refl H).
  rewrite (sub_absent ":" else_re else_repl text eq_refl H).
  rewrite (sub_absent ":" for_re for_repl text eq_refl H).
  exact (sub_absent ":" while_re while_repl text eq_refl H).
Qed.

Lemma rewritten_no_colon opening cond :
  Str.contains ":" opening = false ->
  condition cond ->
  occurs ":" (opening +:+ cond +:+ ") {") = false.
Proof.
  intros Hopen (_ & Hcolon & _).
  now rewrite occurs_char, !contains_append, Hopen, Hcolon.
Qed.

Lemma rewritten_no_lf opening cond :
  Str.contains Chars.LF opening = false ->
  condition cond ->
  Str.contains Chars.LF (opening +:+ cond +:+ ") {") = false.
Proof.
  intros Hopen (Hdot & _ & _).
  now rewrite !contains_append, Hopen, (all_dot_no_lf _ Hdot).
Qed.

(** X18. A line that is an [if] header -- the keyword, blanks, a
    condition on one line with no colon in it, the colon -- is rewritten to
    [if (], the condition, [) {]: the blanks after the keyword become one
    space, the condition is kept as it is, and nothing is added after the
    opening delimiter. *)
Theorem if_header_rewritten ws cond :
  blanks ws -> condition cond ->
  transform_control_structures ("if" +:+ ws +:+ cond +:+ ":")
  = "if (" +:+ cond +:+ ") {".
Proof.
  intros Hws Hcond. unfold transform_control_structures, rewrite_headers.
  cbv zeta.
  assert (Hif : sub if_re if_repl ("if" +:+ ws +:+ cond +:+ ":")
                = "if (" +:+ cond +:+ ") {")
    by exact (sub_keyword_header "if" if_repl None ws cond eq_refl Hws Hcond).
  rewrite Hif.
  rewrite (headers_after_if _ (rewritten_no_colon "if (" cond eq_refl Hcond)).
  change ("if (" +:+ cond +:+ ") {") with (String "i" ("f (" +:+ cond +:+ ") {")).
  rewrite indentations_of_line; [reflexivity | reflexivity | reflexivity |].
  exact (rewritten_no_lf "if (" cond eq_refl Hcond).
Qed.

Lemma if_header_rewritten_witness :
  blanks "   " /\ condition "x > 0 and not done"
  /\ transform_control_structures ("if" +:+ "   " +:+ "x > 0 and not done" +:+ ":")
     = "if (x > 0 and not done) {".
Proof.
  split; [split; reflexivity |]. split; [repeat split |].
  exact (if_header_rewritten "   " "x > 0 and not done"
           (conj eq_refl eq_refl) (conj eq_refl (conj eq_refl eq_refl))).
Defined.

(** X19. A line that is an [elif] header keeps its [elif], whatever the
    condition: the substitution for [if] takes the [if] inside the keyword
    and the colon with it, and the line comes out as [elif (], the
    condition, [) {], with no closing delimiter before it. *)
Theorem elif_header_keeps_elif ws cond :
  blanks ws -> condition cond ->
  transform_control_structures ("elif" +:+ ws +:+ cond +:+ ":")
  = "elif (" +:+ cond +:+ ") {".
Proof.
  intros Hws Hcond. unfold transform_control_structures, rewrite_headers.
  cbv zeta.
  assert (Hif : sub if_re if_repl ("elif" +:+ ws +:+ cond +:+ ":")
                = "elif (" +:+ cond +:+ ") {").
  { change ("elif" +:+ ws +:+ cond +:+ ":")
      with (String "e" (String "l" ("if" +:+ ws +:+ cond +:+ ":"))).
    unfold sub. cbn [sub_from].
    rewrite (keyword_head_fail "i" "f" None "e" _ eq_refl).
    rewrite (keyword_head_fail "i" "f" (Some "e"%char) "l" _ eq_refl).
    change if_re with (keyword_re "if").
    rewrite (sub_keyword_header "if" if_repl (Some "l"%char) ws cond
               eq_refl Hws Hcond).
    reflexivity. }
  rewrite Hif.
  rewrite (headers_after_if _ (rewritten_no_colon "elif (" cond eq_refl Hcond)).
  change ("elif (" +:+ cond +:+ ") {")
    with (String "e" ("lif (" +:+ cond +:+ ") {")).
  rewrite indentations_of_line; [reflexivity | reflexivity | reflexivity |].
  exact (rewritten_no_lf "elif (" cond eq_refl Hcond).
Qed.

Lemma elif_header_keeps_elif_witness :
  blanks " " /\ condition "n == 0"
  /\ transform_control_structures ("elif" +:+ " " +:+ "n == 0" +:+ ":")
     = "elif (n == 0) {".
Proof.
  split; [split; reflexivity |]. split; [repeat split |].
  exact (elif_header_keeps_elif " " "n == 0"
           (conj eq_refl eq_refl) (conj eq_refl (conj eq_refl eq_refl))).
Defined.

End Headers.

(** ** Variable bindings *)

Section Bindings.

Lemma infer_type_range value : In (infer_type value) inferred_types.
Proof.
  unfold infer_type, inferred_types. cbv zeta.
  repeat match goal with
         | |- context [if ?b then _ else _] => destruct b
         end; simpl; tauto.
Qed.

(** X20. Every binding the assignment pattern matches gets a type: the
    replacement is the indentation, one of the five types, a space, the
    name, [ = ] and the value (blanks around the [=] become one space on
    each side); no match is passed through without a type. *)
Theorem assignment_always_typed before s m :
  Re.match_at assignment_re before s = Some m ->
  exists type value,
    transform_assignment m
    = Re.ref 1 m +:+ type +:+ " " +:+ Re.ref 2 m +:+ " = " +:+ value
    /\ In type inferred_types
    /\ (value = Re.ref 3 m \/ value = Str.lower (Re.ref 3 m)).
Proof.
  intros Hm. unfold transform_assignment. cbv zeta.
  rewrite (self_guard_unreachable _ _ _ Hm).
  eexists _, _. split; [reflexivity |]. split; [apply infer_type_range |].
  destruct (_ && _); [now right | now left].
Qed.

Lemma assignment_always_typed_witness :
  let m := Re.Matched 12 [(3, "True"); (2, "ok"); (1, "  ")] in
  Re.match_at assignment_re None "  ok  = True" = Some m
  /\ exists type value,
       transform_assignment m
       = Re.ref 1 m +:+ type +:+ " " +:+ Re.ref 2 m +:+ " = " +:+ value
       /\ In type inferred_types
       /\ (value = Re.ref 3 m \/ value = Str.lower (Re.ref 3 m)).
Proof.
  intros m. split; [vm_compute; reflexivity |].
  apply (assignment_always_typed None "  ok  = True" m).
  vm_compute. reflexivity.
Defined.

Lemma rev_onto_rev_onto s :
  forall acc acc',
    Str.rev_onto (Str.rev_onto s acc) acc' = Str.rev_onto acc (s +:+ acc').
Proof.
  induction s as [|x s IH]; intros acc acc'; [reflexivity |].
  simpl. rewrite IH. reflexivity.
Qed.

Lemma rev_rev s : Str.rev (Str.rev s) = s.
Proof.
  unfold Str.rev. rewrite rev_onto_rev_onto. simpl. apply append_nil_r.
Qed.

Lemma all_rev_onto p s :
  forall acc, Str.all p (Str.rev_onto s acc) = Str.all p s && Str.all p acc.
Proof.
  induction s as [|x s IH]; intros acc; [reflexivity |].
  simpl. rewrite IH. simpl.
  destruct (p x), (Str.all p s), (Str.all p acc); reflexivity.
Qed.

Lemma all_append p a b : Str.all p (a +:+ b) = Str.all p a && Str.all p b.
Proof.
  induction a as [|x a IH]; [reflexivity |].
  rewrite append_cons. simpl. now rewrite IH, andb_assoc.
Qed.

Lemma lstrip_nonspace s :
  Str.all Chars.nonspace s = true -> Str.lstrip_by Chars.isspace s = s.
Proof.
  destruct s as [|x s]; [reflexivity |]. simpl. intros H.
  apply andb_true_iff in H as [Hx _].
  unfold Chars.nonspace in Hx. apply negb_true_iff in Hx. now rewrite Hx.
Qed.

(** Trimming a text that holds no whitespace changes nothing. *)
Lemma strip_nonspace s : Str.all Chars.nonspace s = true -> Str.strip s = s.
Proof.
  intros H. unfold Str.strip, Str.rstrip_by.
  rewrite (lstrip_nonspace _ H), lstrip_nonspace; [apply rev_rev |].
  unfold Str.rev. now rewrite all_rev_onto, H.
Qed.

Lemma all_impl (p q : ascii -> bool) s :
  (forall c, p c = true -> q c = true) ->
  Str.all p s = true -> Str.all q s = true.
Proof.
  intros Hpq. induction s as [|x s IH]; [reflexivity |]. simpl. intros H.
  apply andb_true_iff in H as [Hx Hs]. now rewrite (Hpq _ Hx), (IH Hs).
Qed.

Lemma digit_facts c :
  Chars.between 48 57 c = true ->
  Chars.isdigit c = true /\ Chars.nonspace c = true
  /\ Chars.ischar "." c = false.
Proof.
  unfold Chars.isdigit, Chars.nonspace, Chars.isspace, Chars.ischar,
    Chars.between.
  change (Chars.code ".") with 46%N. intros H.
  apply andb_true_iff in H as [Hlo Hhi].
  apply N.leb_le in Hlo. apply N.leb_le in Hhi.
  rewrite (proj2 (N.leb_le 48 _) Hlo), (proj2 (N.leb_le _ 57) Hhi).
  split; [reflexivity |]. split.
  - apply negb_true_iff.
    repeat match goal with
           | |- context [(?a <=? ?b)%N] => destruct (N.leb_spec a b)
           | |- context [(?a =? ?b)%N] => destruct (N.eqb_spec a b)
           end; simpl; try reflexivity; lia.
  - apply N.eqb_neq. lia.
Qed.

Lemma decimal_no_dot v : decimal v -> Str.contains "." v = false.
Proof.
  unfold decimal. induction v as [|x v IH]; [reflexivity |]. simpl.
  intros H. apply andb_true_iff in H as [Hx Hv].
  rewrite contains_cons, (IH Hv).
  now rewrite (proj2 (proj2 (digit_facts _ Hx))).
Qed.

Lemma remove_first_append c a b :
  Str.contains c a = false ->
  Str.remove_first c (a +:+ String c b) = a +:+ b.
Proof.
  induction a as [|x a IH]; intros H.
  - rewrite !append_nil_l. simpl. unfold Chars.ischar. now rewrite N.eqb_refl.
  - rewrite contains_cons in H. apply orb_false_iff in H as [Hx H].
    rewrite !append_cons. simpl. now rewrite Hx, (IH H).
Qed.

Lemma isdigit_all s :
  Str.nonempty s = true -> Str.all Chars.isdigit s = true ->
  Str.isdigit s = true.
Proof. destruct s; [discriminate | now intros _ H]. Qed.

(** X21. The type of a numeric literal: decimal digits are an [int];
    decimal digits with one point among them, before them or after them are
    a [double]. *)
Theorem numeric_literal_types v w :
  decimal v -> decimal w ->
  (Str.nonempty v = true -> infer_type v = "int")
  /\ (Str.nonempty (v +:+ w) = true ->
      infer_type (v +:+ "." +:+ w) = "double").
Proof.
  intros Hv Hw.
  pose proof (all_impl _ _ _ (fun c H => proj1 (digit_facts c H)) Hv) as Dv.
  pose proof (all_impl _ _ _ (fun c H => proj1 (digit_facts c H)) Hw) as Dw.
  pose proof (all_impl _ _ _
                (fun c H => proj1 (proj2 (digit_facts c H))) Hv) as Sv.
  pose proof (all_impl _ _ _
                (fun c H => proj1 (proj2 (digit_facts c H))) Hw) as Sw.
  split; intros Hne; unfold infer_type; cbv zeta.
  - rewrite (strip_nonspace _ Sv), (isdigit_all _ Hne Dv). reflexivity.
  - assert (Hs : Str.all Chars.nonspace (v +:+ "." +:+ w) = true)
      by (rewrite !all_append, Sv, Sw; reflexivity).
    rewrite (strip_nonspace _ Hs).
    assert (Hnot : Str.isdigit (v +:+ "." +:+ w) = false).
    { assert (A : Str.all Chars.isdigit (v +:+ "." +:+ w) = false)
        by (rewrite !all_append, Dv; reflexivity).
      unfold Str.isdigit. rewrite A. now destruct (v +:+ "." +:+ w). }
    rewrite Hnot.
    change ("." +:+ w) with (String "." w).
    rewrite (remove_first_append _ _ _ (decimal_no_dot _ Hv)).
    rewrite isdigit_all; [reflexivity | exact Hne |].
    now rewrite all_append, Dv, Dw.
Qed.

Lemma numeric_literal_types_witness :
  decimal "12" /\ decimal "" /\ Str.nonempty ("12" +:+ "") = true
  /\ infer_type "12" = "int"
  /\ infer_type ("12" +:+ "." +:+ "") = "double".
Proof.
  split; [reflexivity |]. split; [reflexivity |]. split; [reflexivity |].
  destruct (numeric_literal_types "12" "" eq_refl eq_refl) as [Hint Hdouble].
  split; [exact (Hint eq_refl) | exact (Hdouble eq_refl)].
Defined.

End Bindings.
